(** * AI & society job feed: normalisation, deduplication and integration

    A shallow embedding of the programs that make up the data path of the
    repository:

    - [linkedin_scraper.js]: the per-query loop that turns the raw records
      of the LinkedIn query API into Job Records ([determineJobType],
      [generateTags] and the [jobs.map] callback);
    - [integrate_data.py] (the script the workflow
      [.github/workflows/unified_scraper.yml] writes and runs): the
      concatenation of the staged per-source arrays, the [seen] /
      [unique_jobs] loop, the sort by relevance, the statistics and the
      write of [data/all_jobs_integrated.json];
    - the script of [index.html] that reads the published files:
      [loadJobs], [removeDuplicateJobs], [calculateCombinedStats],
      [applyFilters] and the relevance case of [sortJobs];
    - the workflow step that updates the legacy data files.

    Definitions come first, each next to the source lines it embeds; the
    theorems follow. *)

From Stdlib Require Import ZArith Lia Ascii String List Permutation Sorted.
From stdpp Require Import base option list gmap strings.

Local Open Scope Z_scope.

(** ** JavaScript values and strings *)

Module JS.

(** The values a raw record's property can hold: the query API builds
    every property from scraped text, so a property is a string or is
    missing ([undefined]); [null] and booleans are kept because the
    scraper's own object literal produces them ([deadline: null],
    [is_remote]). *)
Inductive jsval : Type :=
| VUndefined
| VNull
| VBool (b : bool)
| VStr (s : string).

#[global] Instance jsval_eq_dec : EqDecision jsval.
Proof. solve_decision. Defined.

(** Exceptions: the only one this code can raise is the [TypeError] of a
    method call on a value that has no such method. *)
Inductive js_error : Type := TypeError.

Inductive result (A : Type) : Type :=
| Ok (a : A)
| Throw (e : js_error).
Arguments Ok {A} a.
Arguments Throw {A} e.

Definition bind {A B} (r : result A) (k : A -> result B) : result B :=
  match r with
  | Ok a => k a
  | Throw e => Throw e
  end.

(** [Array.prototype.map] with a callback that may throw: the first
    exception aborts the whole call. *)
Fixpoint array_map {A B} (f : A -> result B) (l : list A) : result (list B) :=
  match l with
  | [] => Ok []
  | x :: l' =>
      bind (f x) (fun y => bind (array_map f l') (fun ys => Ok (y :: ys)))
  end.

(** ToBoolean. *)
Definition truthy (v : jsval) : bool :=
  match v with
  | VUndefined | VNull => false
  | VBool b => b
  | VStr s => negb (String.eqb s "")
  end.

(** [a || b]. *)
Definition or (a b : jsval) : jsval := if truthy a then a else b.

(** ToString, as a template literal applies it. *)
Definition to_string (v : jsval) : string :=
  match v with
  | VUndefined => "undefined"
  | VNull => "null"
  | VBool true => "true"
  | VBool false => "false"
  | VStr s => s
  end.

(** [String.prototype.toLowerCase], on the ASCII letters. *)
Definition lower_ascii (c : ascii) : ascii :=
  let n := N_of_ascii c in
  if ((65 <=? n) && (n <=? 90))%N then ascii_of_N (n + 32) else c.

Fixpoint toLowerCase (s : string) : string :=
  match s with
  | EmptyString => EmptyString
  | String c s' => String (lower_ascii c) (toLowerCase s')
  end.

(** [String.prototype.includes]: [pat] occurs somewhere in [s]. *)
Fixpoint includes (s pat : string) : bool :=
  if String.prefix pat s then true
  else match s with
       | EmptyString => false
       | String _ s' => includes s' pat
       end.

(** [v.toLowerCase()] on an arbitrary value: a string has the method,
    [undefined] and [null] have no properties and a boolean has no such
    method, so the call throws. *)
Definition call_toLowerCase (v : jsval) : result string :=
  match v with
  | VStr s => Ok (toLowerCase s)
  | _ => Throw TypeError
  end.

(** [[...new Set(xs)]]: a Set keeps its elements in insertion order and
    ignores an element it already holds. *)
Definition set_add (acc : list string) (x : string) : list string :=
  if bool_decide (x ∈ acc) then acc else acc ++ [x].

Definition spread_set (xs : list string) : list string :=
  fold_left set_add xs [].

End JS.

(** The scraper code is written with stdpp's monad notation
    ([x ← r; k]) over [JS.result]. *)
#[global] Instance result_ret : MRet JS.result := @JS.Ok.
#[global] Instance result_bind : MBind JS.result :=
  fun A B k r => JS.bind r k.

(** ** linkedin_scraper.js *)

Module LinkedinScraper.
Import JS.

(** One entry of [searchCombinations]. The literal table gives every
    entry the first seven properties; no entry has [gemini_analyze],
    which the object literal below reads all the same. *)
Record Combo : Type := {
  keyword : string;
  location : string;
  experienceLevel : string;
  jobType : string;
  dateSincePosted : string;
  limit : string;
  priority : string;
  gemini_analyze : jsval
}.

(** One element of the array [linkedIn.query] resolves to. *)
Record RawJob : Type := {
  position : jsval;
  raw_company : jsval;
  raw_location : jsval;
  date : jsval;
  jobUrl : jsval;
  salary : jsval;
  companyLogo : jsval;
  agoTime : jsval
}.

(** The object the [jobs.map] callback builds. *)
Record JobRecord : Type := {
  title : jsval;
  company : jsval;
  job_location : jsval;
  job_type : string;
  category : string;
  description : string;
  posting_date : jsval;
  deadline : jsval;
  source_url : jsval;
  source_site : string;
  tags : list string;
  relevance_score : Z;
  salary_info : jsval;
  is_remote : jsval;
  search_query : string;
  experience_level : string;
  company_logo : jsval;
  ago_time : jsval;
  job_gemini_analyze : jsval
}.

(** [function determineJobType(company)], on a string: the body after
    [company.toLowerCase()] succeeded. *)
Definition classify (companyLower : string) : string :=
  if includes companyLower "university" || includes companyLower "college"
  then "faculty"
  else if includes companyLower "government" || includes companyLower "federal"
  then "government"
  else if includes companyLower "united nations" || includes companyLower "oecd"
  then "international"
  else if includes companyLower "foundation" || includes companyLower "nonprofit"
  then "nonprofit"
  else "industry".

Definition determineJobType (company : jsval) : result string :=
  companyLower ← call_toLowerCase company;
  mret (classify companyLower).

(** [function generateTags(title, searchQuery)]: the [tags.push] calls in
    program order, then [[...new Set(tags)]]. *)
Definition push_if (c : bool) (tag : string) (tags : list string) : list string :=
  if c then tags ++ [tag] else tags.

Definition collect_tags (content searchQuery : string) : list string :=
  let tags := [searchQuery] in
  let tags :=
    push_if (includes content "ai" || includes content "artificial intelligence")
            "AI" tags in
  let tags := push_if (includes content "ethics") "Ethics" tags in
  let tags := push_if (includes content "policy") "Policy" tags in
  let tags := push_if (includes content "research") "Research" tags in
  let tags :=
    push_if (includes content "senior" || includes content "lead") "Senior" tags in
  tags.

Definition generateTags (title : jsval) (searchQuery : string)
  : result (list string) :=
  content ← call_toLowerCase title;
  mret (spread_set (collect_tags content searchQuery)).

(** [job.location?.toLowerCase().includes('remote')]: the optional chain
    yields [undefined] when [job.location] is [undefined] or [null]. *)
Definition location_mentions_remote (loc : jsval) : result jsval :=
  match loc with
  | VUndefined | VNull => Ok VUndefined
  | _ => l ← call_toLowerCase loc; mret (VBool (includes l "remote"))
  end.

(** The [jobs.map] callback (the Field Normalizer of the LinkedIn source).
    [today] stands for [new Date().toISOString().split('T')[0]]. The
    properties are evaluated in the order the literal lists them. *)
Definition processJob (today : string) (combo : Combo) (job : RawJob)
  : result JobRecord :=
  let title := or (position job) (VStr "Unknown Position") in
  let company := or (raw_company job) (VStr "Unknown Company") in
  let loc := or (raw_location job) (VStr (location combo)) in
  jt ← determineJobType (raw_company job);
  let description :=
    "LinkedIn: " +:+ to_string (position job) +:+ " at " +:+
    to_string (raw_company job) +:+ ". Query: " +:+ keyword combo in
  let posting_date := or (date job) (VStr today) in
  let source_url := or (jobUrl job) (VStr "") in
  tgs ← generateTags (position job) (keyword combo);
  let salary_info := or (salary job) (VStr "") in
  remote ←
    (if String.eqb (location combo) "Remote" then Ok (VBool true)
     else location_mentions_remote (raw_location job));
  mret {|
    title := title;
    company := company;
    job_location := loc;
    job_type := jt;
    category := "research";
    description := description;
    posting_date := posting_date;
    deadline := VNull;
    source_url := source_url;
    source_site := "linkedin";
    tags := tgs;
    relevance_score := 60;
    salary_info := salary_info;
    is_remote := remote;
    search_query := keyword combo;
    experience_level := experienceLevel combo;
    company_logo := or (companyLogo job) (VStr "");
    ago_time := or (agoTime job) (VStr "");
    job_gemini_analyze := or (gemini_analyze combo) (VBool false)
  |}.

(** One turn of the [for (const combo of searchCombinations)] loop, given
    the array the query resolved to: an exception thrown by the callback
    is caught by the enclosing [try], and [allJobs] keeps its value. *)
Definition collect (today : string) (allJobs : list JobRecord)
    (combo : Combo) (jobs : list RawJob) : list JobRecord :=
  match array_map (processJob today combo) jobs with
  | Ok processedJobs => allJobs ++ processedJobs
  | Throw _ => allJobs
  end.

End LinkedinScraper.

(** ** integrate_data.py *)

Module IntegrateData.

(** A job as the staging files hold it: a JSON object whose keys follow
    the Job Record schema. The script reads every key with
    [job.get(key, default)], so each field is optional here; a present
    key holds a value of the schema's type. *)
Record Job : Type := {
  title : option string;
  company : option string;
  source_url : option string;
  source_site : option string;
  relevance_score : option Z;
  job_type : option string;
  category : option string;
  gemini_analyzed : option bool;
  is_remote : option bool
}.

#[global] Instance Job_eq_dec : EqDecision Job.
Proof. solve_decision. Defined.

(** [d.get(key, dflt)] on an optional field. *)
Definition get {A} (field : option A) (dflt : A) : A :=
  match field with
  | Some v => v
  | None => dflt
  end.

(** [len(l)]. *)
Definition len {A} (l : list A) : Z := Z.of_nat (length l).

(** Truth value of a [str]: non-empty. *)
Definition str_truthy (s : string) : bool := negb (String.eqb s "").

(** What [json.load] gives for one staging file: a dictionary that may
    lack the key ['jobs']. *)
Record SourceData : Type := { jobs_key : option (list Job) }.

(** [load_json_safely(filepath)]: [None] stands for a file that cannot be
    opened or parsed, where the [except] branch returns
    [{'jobs': [], 'metadata': {}}]. *)
Definition load_json_safely (file : option SourceData) : SourceData :=
  match file with
  | Some data => data
  | None => {| jobs_key := Some [] |}
  end.

(** [data.get('jobs', [])]. *)
Definition jobs_of (data : SourceData) : list Job := get (jobs_key data) [].

(** [all_jobs = []] followed by the three [all_jobs.extend] calls. *)
Definition combine (academic_data rss_data linkedin_data : SourceData)
  : list Job :=
  let all_jobs := [] in
  let all_jobs := all_jobs ++ jobs_of academic_data in
  let all_jobs := all_jobs ++ jobs_of rss_data in
  let all_jobs := all_jobs ++ jobs_of linkedin_data in
  all_jobs.

(** The unique identifier of the loop body:
    [url = job.get('source_url', '')],
    [title_company = f"{job.get('title', '')}-{job.get('company', '')}"],
    [identifier = url if url else title_company]. *)
Definition identifier (job : Job) : string :=
  let url := get (source_url job) "" in
  let title_company := get (title job) "" +:+ "-" +:+ get (company job) "" in
  if str_truthy url then url else title_company.

(** One turn of [for job in all_jobs], on the pair
    [(seen, unique_jobs)]. *)
Definition dedup_step (st : gset string * list Job) (job : Job)
  : gset string * list Job :=
  let '(seen, unique_jobs) := st in
  let identifier := identifier job in
  if bool_decide (identifier ∉ seen)
  then ({[identifier]} ∪ seen, unique_jobs ++ [job])
  else (seen, unique_jobs).

Definition dedup_loop (all_jobs : list Job) : gset string * list Job :=
  fold_left dedup_step all_jobs (∅, []).

Definition unique_jobs_of (all_jobs : list Job) : list Job :=
  (dedup_loop all_jobs).2.

(** The sort key [lambda x: x.get('relevance_score', 0)]. *)
Definition sort_key (x : Job) : Z := get (relevance_score x) 0.

(** [list.sort(key=..., reverse=True)]: Python's sort is stable, and with
    [reverse=True] it orders by descending key while elements with equal
    keys keep their original order. Any sort with these two properties
    returns the same list; this one inserts each element, from the last
    to the first, in front of the first element whose key is not
    greater. *)
Fixpoint insert_desc {A} (key : A -> Z) (x : A) (l : list A) : list A :=
  match l with
  | [] => [x]
  | y :: l' =>
      if key x <? key y then y :: insert_desc key x l' else x :: y :: l'
  end.

Definition sort_reverse {A} (key : A -> Z) (l : list A) : list A :=
  foldr (insert_desc key) [] l.

Definition rank (unique_jobs : list Job) : list Job :=
  sort_reverse sort_key unique_jobs.

(** The dictionary under ['sources']. *)
Record Sources : Type := {
  academic : Z;
  jsearch : Z;
  rss : Z;
  linkedin : Z
}.

Record Stats : Type := {
  total_jobs : Z;
  academic_jobs : Z;
  jsearch_jobs : Z;
  rss_jobs : Z;
  linkedin_jobs : Z;
  duplicates_removed : Z;
  high_relevance : Z;
  gemini_analyzed_jobs : Z;
  remote_jobs : Z;
  by_job_type : gmap string Z;
  by_category : gmap string Z;
  sources : Sources
}.

(** [d[k] = d.get(k, 0) + 1]. *)
Definition incr (k : string) (d : gmap string Z) : gmap string Z :=
  <[k := get (d !! k) 0 + 1]> d.

(** One turn of the loop that counts by job type and category. *)
Definition count_step (st : gmap string Z * gmap string Z) (job : Job)
  : gmap string Z * gmap string Z :=
  let job_type := get (job_type job) "unknown" in
  let category := get (category job) "unknown" in
  (incr job_type st.1, incr category st.2).

Definition compute_stats (academic_data rss_data linkedin_data : SourceData)
    (all_jobs unique_jobs : list Job) : Stats :=
  let counts := fold_left count_step unique_jobs (∅, ∅) in
  {| total_jobs := len unique_jobs;
     academic_jobs := len (jobs_of academic_data);
     jsearch_jobs := 0;
     rss_jobs := len (jobs_of rss_data);
     linkedin_jobs := len (jobs_of linkedin_data);
     duplicates_removed := len all_jobs - len unique_jobs;
     high_relevance :=
       len (filter (fun j => get (relevance_score j) 0 >= 80) unique_jobs);
     gemini_analyzed_jobs :=
       len (filter (fun j => get (gemini_analyzed j) false = true) unique_jobs);
     remote_jobs :=
       len (filter (fun j => get (is_remote j) false = true) unique_jobs);
     by_job_type := counts.1;
     by_category := counts.2;
     sources := {| academic := len (jobs_of academic_data);
                   jsearch := 0;
                   rss := len (jobs_of rss_data);
                   linkedin := len (jobs_of linkedin_data) |} |}.

Record Metadata : Type := {
  last_update : string;
  total_unique_jobs : Z;
  sources_integrated : list string;
  integration_date : string;
  note : string
}.

Record MasterData : Type := {
  jobs : list Job;
  stats : Stats;
  metadata : Metadata
}.

(** The script from the three [load_json_safely] calls to [master_data].
    [now1] and [now2] are the two readings of [datetime.now().isoformat()]. *)
Definition integrate (now1 now2 : string)
    (academic_file rss_file linkedin_file : option SourceData) : MasterData :=
  let academic_data := load_json_safely academic_file in
  let rss_data := load_json_safely rss_file in
  let linkedin_data := load_json_safely linkedin_file in
  let all_jobs := combine academic_data rss_data linkedin_data in
  let unique_jobs := unique_jobs_of all_jobs in
  let unique_jobs := rank unique_jobs in
  let stats :=
    compute_stats academic_data rss_data linkedin_data all_jobs unique_jobs in
  {| jobs := unique_jobs;
     stats := stats;
     metadata :=
       {| last_update := now1;
          total_unique_jobs := len unique_jobs;
          sources_integrated := ["academic"; "rss"; "linkedin"];
          integration_date := now2;
          note := "JSearch temporarily disabled due to quota limits" |} |}.

(** *** Saving the master file

    [with open('data/all_jobs_integrated.json', 'w', encoding='utf-8') as f:
       json.dump(master_data, f, ...)].
    The file system is a map from paths to contents; contents and chunks
    are byte strings, the UTF-8 encoding of the text. [open(path, 'w')]
    creates the file or truncates it to length zero at once. The file
    object is buffered: [json.dump] hands the encoder's chunks to it one
    after the other ([for chunk in iterable: fp.write(chunk)]), and what
    has been written stays pending until the buffer is flushed; when, and
    how much of it, is the runtime's choice. Leaving the [with] block
    closes the file, which flushes all that is pending. *)
Inductive fs_op : Type :=
| OpenW (path : string)
| Write (path : string) (chunk : string)
| Close (path : string).

(** The files as they are on disk and, for each open file, the text
    written to it since it was opened. *)
Record fs_state : Type := {
  disk : gmap string string;
  pending : gmap string string
}.

(** A write or a close acts on an open file; the save never does either
    on a file that is not open, and here such an operation changes
    nothing. *)
Definition exec_op (st : fs_state) (op : fs_op) : fs_state :=
  match op with
  | OpenW path =>
      {| disk := <[path := ""]> (disk st);
         pending := <[path := ""]> (pending st) |}
  | Write path chunk =>
      match pending st !! path with
      | Some text =>
          {| disk := disk st;
             pending := <[path := text +:+ chunk]> (pending st) |}
      | None => st
      end
  | Close path =>
      match pending st !! path with
      | Some text =>
          {| disk := <[path := text]> (disk st);
             pending := delete path (pending st) |}
      | None => st
      end
  end.

(** The path an operation acts on. *)
Definition op_path (op : fs_op) : string :=
  match op with
  | OpenW path | Write path _ | Close path => path
  end.

Definition master_file : string := "data/all_jobs_integrated.json".

(** The operations of the save, for the chunks [json.dump] produces. *)
Definition save_master_file (chunks : list string) : list fs_op :=
  OpenW master_file :: map (Write master_file) chunks ++ [Close master_file].

(** The first [n] bytes of a text. *)
Fixpoint string_take (n : nat) (s : string) : string :=
  match n, s with
  | S n', String c s' => String c (string_take n' s')
  | _, _ => ""
  end.

(** The state after the operations, from the files [fs] with none open. *)
Definition exec (ops : list fs_op) (fs : gmap string string) : fs_state :=
  fold_left exec_op ops {| disk := fs; pending := ∅ |}.

(** The files after a run to its end: what is still pending for a file
    left open is flushed by the normal exit. *)
Definition run (ops : list fs_op) (fs : gmap string string) : gmap string string :=
  pending (exec ops fs) ∪ disk (exec ops fs).

(** The files after a run that stops (crash, kill) after [n] operations,
    when of the text pending for an open file the first [flushed] bytes
    had been flushed: these are in the file, the rest is lost. *)
Definition run_until (n flushed : nat) (ops : list fs_op)
    (fs : gmap string string) : gmap string string :=
  (string_take flushed <$> pending (exec (take n ops) fs))
  ∪ disk (exec (take n ops) fs).

End IntegrateData.

(** ** The specification's reading of two components

    Definitions that follow the specification's words rather than the
    code; the theorems below compare them with the code. *)

Module Spec.

(** The ordered rule list of the [job_type] classifier: each rule is a
    list of substrings and the classification that any of them gives. *)
Definition job_type_rules : list (list string * string) :=
  [ (["university"; "college"], "faculty");
    (["government"; "federal"], "government");
    (["united nations"; "oecd"], "international");
    (["foundation"; "nonprofit"], "nonprofit") ].

(** A decision list: the rules are tried in order and the first one with
    a matching substring wins. *)
Fixpoint first_match (rules : list (list string * string))
    (otherwise : string) (s : string) : string :=
  match rules with
  | [] => otherwise
  | (pats, r) :: rules' =>
      if existsb (JS.includes s) pats then r
      else first_match rules' otherwise s
  end.

(** A job whose missing relevance score has been filled in with [d]. *)
Definition with_score (d : Z) (j : IntegrateData.Job) : IntegrateData.Job :=
  {| IntegrateData.title := IntegrateData.title j;
     IntegrateData.company := IntegrateData.company j;
     IntegrateData.source_url := IntegrateData.source_url j;
     IntegrateData.source_site := IntegrateData.source_site j;
     IntegrateData.relevance_score :=
       Some (IntegrateData.get (IntegrateData.relevance_score j) d);
     IntegrateData.job_type := IntegrateData.job_type j;
     IntegrateData.category := IntegrateData.category j;
     IntegrateData.gemini_analyzed := IntegrateData.gemini_analyzed j;
     IntegrateData.is_remote := IntegrateData.is_remote j |}.

(** The records of [l] with identity [i], in order. *)
Definition with_identity (i : string) (l : list IntegrateData.Job)
  : list IntegrateData.Job :=
  filter (fun j => IntegrateData.identifier j = i) l.

(** The loop of the deduplicator read as a recursive function: a record
    is kept when its identity is not in [seen]. *)
Fixpoint keep_first (seen : gset string) (l : list IntegrateData.Job)
  : list IntegrateData.Job :=
  match l with
  | [] => []
  | job :: l' =>
      if bool_decide (IntegrateData.identifier job ∉ seen)
      then job :: keep_first ({[IntegrateData.identifier job]} ∪ seen) l'
      else keep_first seen l'
  end.

(** [pos] lists, for each position of [out], the position in [l] that
    holds the same element, and is strictly increasing. *)
Definition increasing_positions {A} (pos : list nat) (out l : list A) : Prop :=
  Forall2 (fun i x => l !! i = Some x) pos out ∧ StronglySorted lt pos.

(** The text of a list of chunks. *)
Definition text (chunks : list string) : string :=
  foldr String.append "" chunks.

End Spec.

(** ** Example inputs *)

Module Examples.
Import JS LinkedinScraper.

(** A query of the table and three raw records. *)
Definition example_combo : Combo :=
  {| keyword := "AI ethics"; location := "United States";
     experienceLevel := ""; jobType := "full time";
     dateSincePosted := "past month"; limit := "25"; priority := "high";
     gemini_analyze := VUndefined |}.

Definition raw_complete : RawJob :=
  {| position := VStr "Senior AI Ethics Fellow"; raw_company := VStr "MIT";
     raw_location := VStr "Cambridge, MA"; date := VStr "2025-01-01";
     jobUrl := VStr "http://x/1"; salary := VUndefined;
     companyLogo := VUndefined; agoTime := VUndefined |}.

Definition raw_without_company : RawJob :=
  {| position := VStr "AI Ethics Fellow"; raw_company := VUndefined;
     raw_location := VStr "Cambridge, MA"; date := VStr "2025-01-01";
     jobUrl := VStr "http://x/2"; salary := VUndefined;
     companyLogo := VUndefined; agoTime := VUndefined |}.

Definition raw_without_position : RawJob :=
  {| position := VNull; raw_company := VStr "MIT";
     raw_location := VUndefined; date := VUndefined;
     jobUrl := VUndefined; salary := VUndefined;
     companyLogo := VUndefined; agoTime := VUndefined |}.

(** Jobs of the staging files. [academic_fellow] and [linkedin_fellow] are
    the same posting seen by two sources. *)
Definition job (t c : string) (url : option string) (site : string)
    (score : option Z) : IntegrateData.Job :=
  {| IntegrateData.title := Some t;
     IntegrateData.company := Some c;
     IntegrateData.source_url := url;
     IntegrateData.source_site := Some site;
     IntegrateData.relevance_score := score;
     IntegrateData.job_type := None;
     IntegrateData.category := None;
     IntegrateData.gemini_analyzed := None;
     IntegrateData.is_remote := None |}.

Definition academic_fellow : IntegrateData.Job :=
  job "AI Ethics Fellow" "MIT" (Some "http://x/1") "academic_jobs_online" (Some 85).

Definition linkedin_fellow : IntegrateData.Job :=
  job "AI Ethics Fellow (m/f/d)" "MIT Media Lab" (Some "http://x/1") "linkedin" (Some 60).

Definition unscored : IntegrateData.Job :=
  job "Policy Analyst" "OECD" (Some "http://x/2") "rss" None.

Definition job30 : IntegrateData.Job :=
  job "Data Engineer" "Acme" (Some "http://x/3") "linkedin" (Some 30).

Definition job40 : IntegrateData.Job :=
  job "Analyst" "Acme" (Some "http://x/4") "linkedin" (Some 40).

Definition job90a : IntegrateData.Job :=
  job "AI Policy Lead" "Ada Lovelace Institute" (Some "http://x/5") "rss" (Some 90).

Definition job90b : IntegrateData.Job :=
  job "AI Governance Researcher" "GovAI" (Some "http://x/6") "linkedin" (Some 90).

Definition job60 : IntegrateData.Job :=
  job "Research Engineer" "Acme" (Some "http://x/7") "linkedin" (Some 60).

Definition no_url : IntegrateData.Job :=
  job "Postdoc" "ETH" None "academic_jobs_online" (Some 70).

(** The published path holding the dataset of an earlier run. *)
Definition published_before : gmap string string :=
  {[ IntegrateData.master_file := "old dataset" ]}.

End Examples.

(** ** linkedin_scraper.js: the collection loop *)

Module ScrapeLoop.
Import JS LinkedinScraper.

(** One turn of [for (const combo of searchCombinations)] with what
    [await linkedIn.query(queryOptions)] gave: the array of raw records, or
    an exception, which the [catch] of the same [try] swallows. *)
Definition turn (today : string) (allJobs : list JobRecord)
    (t : Combo * result (list RawJob)) : list JobRecord :=
  match t.2 with
  | Ok jobs => collect today allJobs t.1 jobs
  | Throw _ => allJobs
  end.

(** Phase 1: [let allJobs = []] and the loop over the combinations, each
    paired with the outcome of its query. The result is what
    [fs.writeFileSync('data/linkedin_raw.json', ...)] saves. *)
Definition phase1 (today : string)
    (turns : list (Combo * result (list RawJob))) : list JobRecord :=
  fold_left (turn today) turns [].

End ScrapeLoop.

(** ** index.html: the dashboard script *)

Module Dashboard.
Import JS.

(** A job as the dashboard reads it from a published file: the keys the
    integration script reads, and the further keys the script of the page
    reads. A key is missing or holds a value of the schema's type. *)
Record Posting : Type := {
  record : IntegrateData.Job;
  location : option string;
  description : option string;
  posting_date : option string;
  basic_relevance_score : option Z
}.

(** Reading a string property of a parsed JSON object: a missing key reads
    as [undefined]. *)
Definition prop (field : option string) : jsval :=
  match field with
  | Some s => VStr s
  | None => VUndefined
  end.

(** [a || b] where [a] is a number property: a missing key and 0 are
    falsy. *)
Definition num_or (a : option Z) (b : Z) : Z :=
  match a with
  | Some n => if n =? 0 then b else n
  | None => b
  end.

(** [Array.prototype.filter] with a callback that may throw. *)
Fixpoint array_filter {A} (f : A -> result bool) (l : list A) : result (list A) :=
  match l with
  | [] => Ok []
  | x :: l' =>
      b ← f x;
      rest ← array_filter f l';
      mret (if b : bool then x :: rest else rest)
  end.

(** [Array.prototype.sort(compare)]: the sort is stable, and an element
    goes behind another when [compare] of the two is positive. *)
Fixpoint insert_by {A} (compare : A -> A -> Z) (x : A) (l : list A) : list A :=
  match l with
  | [] => [x]
  | y :: l' =>
      if 0 <? compare x y then y :: insert_by compare x l' else x :: y :: l'
  end.

Definition array_sort {A} (compare : A -> A -> Z) (l : list A) : list A :=
  foldr (insert_by compare) [] l.

(** The key of [removeDuplicateJobs]:
    [job.source_url || `${job.title}-${job.company}`]. *)
Definition key (job : Posting) : string :=
  let source_url := prop (IntegrateData.source_url (record job)) in
  if truthy source_url then to_string source_url
  else to_string (prop (IntegrateData.title (record job))) +:+ "-" +:+
       to_string (prop (IntegrateData.company (record job))).

(** One call of the callback of [jobs.filter] in [removeDuplicateJobs], on
    the set [seen] and the elements kept so far. *)
Definition dedup_callback (st : gset string * list Posting) (job : Posting)
  : gset string * list Posting :=
  let key := key job in
  if bool_decide (key ∈ st.1) then st
  else ({[key]} ∪ st.1, st.2 ++ [job]).

Definition removeDuplicateJobs (jobs : list Posting) : list Posting :=
  (fold_left dedup_callback jobs (∅, [])).2.

(** The score the page shows and sorts by:
    [job.relevance_score || job.basic_relevance_score || 60]. *)
Definition shown_score (job : Posting) : Z :=
  num_or (IntegrateData.relevance_score (record job))
         (num_or (basic_relevance_score job) 60).

(** The ['relevance'] case of [sortJobs]:
    [filteredJobs.sort((a, b) => score(b) - score(a))]. The ['date'] and
    ['company'] cases parse dates and collate by locale and are not
    embedded. *)
Definition sort_by_relevance (filteredJobs : list Posting) : list Posting :=
  array_sort (fun a b => shown_score b - shown_score a) filteredJobs.

(** The callback of [allJobs.filter] in [applyFilters], for the values of
    the four controls ([location] and [keyword] already lower-cased). The
    conjunction and the disjunctions evaluate left to right and stop at the
    first operand that decides them. *)
Definition matches (jobType category location keyword : string) (job : Posting)
  : result bool :=
  if negb (String.eqb jobType "all"
           || bool_decide (IntegrateData.job_type (record job) = Some jobType))
  then Ok false
  else if negb (String.eqb category "all"
                || bool_decide (IntegrateData.category (record job) = Some category))
  then Ok false
  else
    in_location ←
      (if String.eqb location "" then Ok true
       else l ← call_toLowerCase (prop (Dashboard.location job));
            mret (includes l location));
    if negb in_location then Ok false
    else if String.eqb keyword "" then Ok true
    else
      t ← call_toLowerCase (prop (IntegrateData.title (record job)));
      if includes t keyword then Ok true
      else
        d ← call_toLowerCase (prop (description job));
        if includes d keyword then Ok true
        else
          c ← call_toLowerCase (prop (IntegrateData.company (record job)));
          mret (includes c keyword).

(** [applyFilters] up to the call of [sortJobs]: the four controls are
    read, the last two lower-cased, and [allJobs] is filtered. *)
Definition filterJobs (jobType category location_input keyword_input : string)
    (allJobs : list Posting) : result (list Posting) :=
  let location := toLowerCase location_input in
  let keyword := toLowerCase keyword_input in
  array_filter (matches jobType category location keyword) allJobs.

(** [applyFilters] while [currentSort] is ['relevance'], its initial
    value. *)
Definition applyFilters (jobType category location_input keyword_input : string)
    (allJobs : list Posting) : result (list Posting) :=
  filteredJobs ← filterJobs jobType category location_input keyword_input allJobs;
  mret (sort_by_relevance filteredJobs).

(** The same filter for any lower-casing. [String.prototype.toLowerCase]
    maps every cased character of the string by the Unicode case mapping;
    [JS.toLowerCase] is that on ASCII text, and [matches] and [filterJobs]
    above are [matches_with JS.toLowerCase] and
    [filterJobs_with JS.toLowerCase]. *)
Section Filter.

Variable lower : string -> string.

(** [v.toLowerCase()] on an arbitrary value. *)
Definition call_lower (v : jsval) : result string :=
  match v with
  | VStr s => Ok (lower s)
  | _ => Throw TypeError
  end.

Definition matches_with (jobType category location keyword : string) (job : Posting)
  : result bool :=
  if negb (String.eqb jobType "all"
           || bool_decide (IntegrateData.job_type (record job) = Some jobType))
  then Ok false
  else if negb (String.eqb category "all"
                || bool_decide (IntegrateData.category (record job) = Some category))
  then Ok false
  else
    in_location ←
      (if String.eqb location "" then Ok true
       else l ← call_lower (prop (Dashboard.location job));
            mret (includes l location));
    if negb in_location then Ok false
    else if String.eqb keyword "" then Ok true
    else
      t ← call_lower (prop (IntegrateData.title (record job)));
      if includes t keyword then Ok true
      else
        d ← call_lower (prop (description job));
        if includes d keyword then Ok true
        else
          c ← call_lower (prop (IntegrateData.company (record job)));
          mret (includes c keyword).

Definition filterJobs_with (jobType category location_input keyword_input : string)
    (allJobs : list Posting) : result (list Posting) :=
  let location := lower location_input in
  let keyword := lower keyword_input in
  array_filter (matches_with jobType category location keyword) allJobs.

End Filter.

(** A property of one of the two tally objects of [calculateCombinedStats]:
    a number, or a string once a string has been stored. *)
Inductive cell : Type :=
| Num (n : Z)
| Str (s : string).

(** The tally objects are plain objects ([{}]): a key they do not have
    themselves is looked up in [Object.prototype]. These are its
    properties that hold a function; they are writable, so that assigning
    to one of these keys creates a property of the object itself.
    [__proto__], the one other property, is an accessor. *)
Definition object_prototype_methods : list string :=
  ["constructor"; "hasOwnProperty"; "isPrototypeOf"; "propertyIsEnumerable";
   "toLocaleString"; "toString"; "valueOf";
   "__defineGetter__"; "__defineSetter__"; "__lookupGetter__"; "__lookupSetter__"].

(** The object [calculateCombinedStats] returns; the two tallies are given
    by the properties they have themselves. *)
Record CombinedStats : Type := {
  total : Z;
  by_job_type : gmap string cell;
  by_category : gmap string cell;
  new_today : Z
}.

Section Tallies.

(** The text a function of [Object.prototype] converts to, by the name of
    the property that holds it; the engine chooses it. *)
Variable function_text : string -> string.

(** [(stats[k] || 0) + 1] for a key other than [__proto__]. A number that
    is not 0 and a string that is not empty are truthy, and so is a
    function; [+] adds 1 to a number and appends ["1"] to a string or to
    the text of a function. *)
Definition next (k : string) (d : gmap string cell) : cell :=
  match d !! k with
  | Some (Num n) => Num (num_or (Some n) 0 + 1)
  | Some (Str s) => if String.eqb s "" then Num 1 else Str (s +:+ "1")
  | None =>
      if bool_decide (k ∈ object_prototype_methods)
      then Str (function_text k +:+ "1")
      else Num 1
  end.

(** [stats[k] = (stats[k] || 0) + 1]. Under [__proto__] the object reads
    its prototype, and the setter ignores the string assigned to it: the
    object is left as it is. *)
Definition bump (k : string) (d : gmap string cell) : gmap string cell :=
  if String.eqb k "__proto__" then d else <[k := next k d]> d.

(** One call of the callback of [jobs.forEach]. *)
Definition stats_callback (today : string) (stats : CombinedStats) (job : Posting)
  : CombinedStats :=
  let jobType :=
    to_string (or (prop (IntegrateData.job_type (record job))) (VStr "unknown")) in
  let category :=
    to_string (or (prop (IntegrateData.category (record job))) (VStr "unknown")) in
  {| total := total stats;
     by_job_type := bump jobType (by_job_type stats);
     by_category := bump category (by_category stats);
     new_today :=
       if bool_decide (posting_date job = Some today)
       then new_today stats + 1 else new_today stats |}.

Definition calculateCombinedStats (today : string) (jobs : list Posting)
  : CombinedStats :=
  fold_left (stats_callback today) jobs
    {| total := Z.of_nat (length jobs);
       by_job_type := ∅; by_category := ∅; new_today := 0 |}.

End Tallies.

(** What one [fetch] followed by [response.json()] gives inside its [try]:
    nothing when either raises, else the parsed object, whose key [jobs]
    may be missing. *)
Record Fetched : Type := { fetched_jobs : option (list Posting) }.

(** [if (data.jobs) all = all.concat(data.jobs)] inside [try ... catch]:
    an array, even an empty one, is truthy. *)
Definition concat_jobs (all : list Posting) (data : option Fetched) : list Posting :=
  match data with
  | Some {| fetched_jobs := Some jobs |} => all ++ jobs
  | _ => all
  end.

(** [loadJobs] up to the assignment of [allJobs]: the jobs of the master
    file when it has at least one, else the jobs of the four other files,
    in the order the script fetches them, deduplicated. The second
    component is [dataSource]. *)
Definition loadJobs (master general linkedin rss academic : option Fetched)
  : list Posting * string :=
  let allJobsFromSources :=
    match master with
    | Some {| fetched_jobs := Some jobs |} =>
        if (0 <? length jobs)%nat then jobs else []
    | _ => []
    end in
  if (length allJobsFromSources =? 0)%nat then
    let all := concat_jobs [] general in
    let all := concat_jobs all linkedin in
    let all := concat_jobs all rss in
    let all := concat_jobs all academic in
    (removeDuplicateJobs all, "individual")
  else (allJobsFromSources, "integrated").

End Dashboard.

(** ** unified_scraper.yml: the step that updates the legacy files *)

Module Workflow.
Import IntegrateData.

Definition jobs_json : string := "data/jobs.json".
Definition jsearch_jobs_json : string := "data/jsearch_jobs.json".
Definition create_summary_py : string := "create_summary.py".
Definition scraping_summary_json : string := "data/scraping_summary.json".

Definition double_quote : string := String (ascii_of_nat 34) "".
Definition newline : string := String (ascii_of_nat 10) "".

(** What [echo '{...}' > data/jsearch_jobs.json] writes. *)
Definition jsearch_placeholder : string :=
  "{" +:+ double_quote +:+ "jobs" +:+ double_quote +:+ ": [], "
  +:+ double_quote +:+ "metadata" +:+ double_quote +:+ ": {"
  +:+ double_quote +:+ "note" +:+ double_quote +:+ ": "
  +:+ double_quote +:+ "JSearch disabled due to quota limits" +:+ double_quote
  +:+ "}}" +:+ newline.

Section Step.

(** The text of the here-document that [cat > create_summary.py << 'EOF']
    writes. *)
Variable script : string.

(** What [create_summary.py] writes to [data/scraping_summary.json] for a
    text of the master file: [json.load] of the text, the summary built
    from its [metadata] and [stats], [json.dump] of the summary. [None]
    when the text does not parse or lacks one of the keys read: the
    script's [except Exception] then prints a warning and nothing is
    written. *)
Variable summarize : string -> option string.

(** [python create_summary.py]. Opening a master file that does not exist
    raises inside the [try] as well. *)
Definition create_summary (fs : gmap string string) : gmap string string :=
  match fs !! master_file with
  | Some content =>
      match summarize content with
      | Some summary => <[scraping_summary_json := summary]> fs
      | None => fs
      end
  | None => fs
  end.

(** The shell commands of the step, on the file system of the save, in
    the directory of the checkout, where [data] exists ([mkdir -p data] in
    an earlier step):
    [if [ -f master ]; then cp master data/jobs.json; fi],
    [if [ ! -f data/jsearch_jobs.json ]; then echo ... > it; fi],
    [cat > create_summary.py << 'EOF' ... EOF] and
    [python create_summary.py]. The [echo]s to the log and the test of
    [data/rss_gemini_jobs.json], which only prints, change no file. *)
Definition update_legacy_files (fs : gmap string string) : gmap string string :=
  let fs :=
    match fs !! master_file with
    | Some content => <[jobs_json := content]> fs
    | None => fs
    end in
  let fs :=
    match fs !! jsearch_jobs_json with
    | None => <[jsearch_jobs_json := jsearch_placeholder]> fs
    | Some _ => fs
    end in
  let fs := <[create_summary_py := script]> fs in
  create_summary fs.

End Step.

End Workflow.

(** ** Predicates and sample data of the further theorems *)

Module Props.
Import JS.

(** A value that [JSON.stringify] writes under its key and that reads back
    as something else than a missing key or [null]. *)
Definition defined (v : jsval) : Prop := v <> VUndefined /\ v <> VNull.

(** A string value that is not empty. *)
Definition nonempty_string (v : jsval) : Prop := exists s, v = VStr s /\ s <> "".

(** The tags [generateTags] can add to the search query, in the order of
    its [tags.push] calls. *)
Definition content_tags : list string :=
  ["AI"; "Ethics"; "Policy"; "Research"; "Senior"].

(** The number of raw records the queries of phase 1 returned. *)
Definition received
    (turns : list (LinkedinScraper.Combo * result (list LinkedinScraper.RawJob)))
  : nat :=
  sum_list ((fun t => match t.2 with
                      | Ok jobs => length jobs
                      | Throw _ => 0%nat
                      end) <$> turns).

(** The sum of the counters of a tally. *)
Definition tally_sum (d : gmap string Z) : Z :=
  map_fold (fun _ n acc => n + acc) 0 d.

(** The key the page counts a job under, for its job type or its
    category: ["unknown"] for a missing or an empty one. *)
Definition tally_key (field : option string) : string :=
  to_string (or (Dashboard.prop field) (VStr "unknown")).

(** A key that a plain object does not inherit. *)
Definition plain_key (k : string) : Prop :=
  k <> "__proto__" /\ k ∉ Dashboard.object_prototype_methods.

(** A job whose job type and category are counted under keys that a plain
    object does not inherit. *)
Definition plain_keys (job : Dashboard.Posting) : Prop :=
  plain_key (tally_key (IntegrateData.job_type (Dashboard.record job)))
  /\ plain_key (tally_key (IntegrateData.category (Dashboard.record job))).

(** The records of [l] counted under [k] when a missing key counts as
    ["unknown"]. *)
Definition counted_under (field : IntegrateData.Job -> option string)
    (k : string) (l : list IntegrateData.Job) : list IntegrateData.Job :=
  filter (fun j => IntegrateData.get (field j) "unknown" = k) l.

(** A text property of a job contains [needle] when lower-cased; a missing
    property contains nothing. *)
Definition field_includes (field : option string) (needle : string) : bool :=
  match field with
  | Some s => includes (toLowerCase s) needle
  | None => false
  end.

(** What the four controls of the page ask of a job, read as a condition
    on the job: the job type and the category are the selected ones unless
    "all" is selected, the location contains the location typed, and the
    title, the description or the company contains the keyword typed
    ([location] and [keyword] lower-cased, an empty one asking nothing). *)
Definition visible (jobType category location keyword : string)
    (job : Dashboard.Posting) : Prop :=
  (jobType = "all" \/ IntegrateData.job_type (Dashboard.record job) = Some jobType)
  /\ (category = "all" \/ IntegrateData.category (Dashboard.record job) = Some category)
  /\ (location = "" \/ field_includes (Dashboard.location job) location = true)
  /\ (keyword = ""
      \/ field_includes (IntegrateData.title (Dashboard.record job)) keyword = true
      \/ field_includes (Dashboard.description job) keyword = true
      \/ field_includes (IntegrateData.company (Dashboard.record job)) keyword = true).

#[global] Instance visible_dec jobType category location keyword job :
  Decision (visible jobType category location keyword job).
Proof. unfold visible. apply _. Defined.

(** The same two for any lower-casing of the properties. *)
Definition field_includes_with (lower : string -> string) (field : option string)
    (needle : string) : bool :=
  match field with
  | Some s => includes (lower s) needle
  | None => false
  end.

Definition visible_with (lower : string -> string)
    (jobType category location keyword : string) (job : Dashboard.Posting) : Prop :=
  (jobType = "all" \/ IntegrateData.job_type (Dashboard.record job) = Some jobType)
  /\ (category = "all" \/ IntegrateData.category (Dashboard.record job) = Some category)
  /\ (location = ""
      \/ field_includes_with lower (Dashboard.location job) location = true)
  /\ (keyword = ""
      \/ field_includes_with lower (IntegrateData.title (Dashboard.record job)) keyword
         = true
      \/ field_includes_with lower (Dashboard.description job) keyword = true
      \/ field_includes_with lower (IntegrateData.company (Dashboard.record job)) keyword
         = true).

#[global] Instance visible_with_dec lower jobType category location keyword job :
  Decision (visible_with lower jobType category location keyword job).
Proof. unfold visible_with. apply _. Defined.

(** A job that has the four text properties the filter reads. *)
Definition has_text_keys (job : Dashboard.Posting) : Prop :=
  is_Some (Dashboard.location job)
  /\ is_Some (IntegrateData.title (Dashboard.record job))
  /\ is_Some (Dashboard.description job)
  /\ is_Some (IntegrateData.company (Dashboard.record job)).

(** A published job read by the page, with a location and a description. *)
Definition posting (j : IntegrateData.Job) (loc descr : string) : Dashboard.Posting :=
  {| Dashboard.record := j;
     Dashboard.location := Some loc;
     Dashboard.description := Some descr;
     Dashboard.posting_date := Some "2025-01-01";
     Dashboard.basic_relevance_score := None |}.

End Props.

(** ** Theorems: linkedin_scraper.js *)

Section Strings.
Import JS.

Lemma lower_ascii_idempotent (c : ascii) : lower_ascii (lower_ascii c) = lower_ascii c.
Proof. by destruct c as [[] [] [] [] [] [] [] []]. Qed.

Lemma toLowerCase_idempotent (s : string) : toLowerCase (toLowerCase s) = toLowerCase s.
Proof.
  induction s as [|c s IH]; simpl; [done|].
  by rewrite lower_ascii_idempotent, IH.
Qed.

Lemma prefix_spec (p s : string) :
  String.prefix p s = true <-> exists b, s = p +:+ b.
Proof.
  revert s. induction p as [|c p IH]; intros s; simpl.
  - split; [by exists s | by destruct s].
  - destruct s as [|d s]; [split; [done | by intros [b Hb]]|].
    change (String.prefix (String c p) (String d s))
      with (if ascii_dec c d then String.prefix p s else false).
    destruct (ascii_dec c d) as [->|Hne].
    + rewrite IH. split; intros [b Hb]; exists b.
      * change (String d s = String d (p +:+ b)). by rewrite Hb.
      * change (String d s = String d (p +:+ b)) in Hb. by injection Hb.
    + split; [done|]. intros [b Hb].
      change (String d s = String c (p +:+ b)) in Hb. by injection Hb as -> _.
Qed.

Lemma includes_unfold (s pat : string) :
  includes s pat =
  if String.prefix pat s then true
  else match s with
       | EmptyString => false
       | String _ s' => includes s' pat
       end.
Proof. by destruct s. Qed.

(** [includes] is the substring test. *)
Lemma includes_spec (s pat : string) :
  includes s pat = true <-> exists a b, s = a +:+ pat +:+ b.
Proof.
  split.
  - induction s as [|c s IH]; rewrite includes_unfold;
      destruct (String.prefix pat _) eqn:Hp.
    + apply prefix_spec in Hp as [b ->]. by exists "", b.
    + done.
    + apply prefix_spec in Hp as [b ->]. by exists "", b.
    + intros H. apply IH in H as (a & b & ->). by exists (String c a), b.
  - intros (a & b & ->). induction a as [|c a IH]; rewrite includes_unfold.
    + assert (Hp : String.prefix pat ("" +:+ pat +:+ b) = true)
        by (apply prefix_spec; by exists b).
      by rewrite Hp.
    + destruct (String.prefix pat _); [done|].
      change (includes (a +:+ pat +:+ b) pat = true). apply IH.
Qed.

(** The decision list returns the classification of the first rule that
    matches, and the fallback when no rule does. *)
Lemma first_match_first_wins (before after : list (list string * string))
    (pats : list string) (r otherwise s : string) :
  Forall (fun rule => existsb (includes s) rule.1 = false) before ->
  existsb (includes s) pats = true ->
  Spec.first_match (before ++ (pats, r) :: after) otherwise s = r.
Proof.
  intros Hbefore Hpats. induction Hbefore as [|[ps r'] before Hrule _ IH]; simpl.
  - by rewrite Hpats.
  - simpl in Hrule. by rewrite Hrule.
Qed.

Lemma first_match_otherwise (rules : list (list string * string))
    (otherwise s : string) :
  Forall (fun rule => existsb (includes s) rule.1 = false) rules ->
  Spec.first_match rules otherwise s = otherwise.
Proof.
  induction 1 as [|[ps r'] rules Hrule _ IH]; simpl; [done|].
  simpl in Hrule. by rewrite Hrule.
Qed.

End Strings.

Section Scraper.
Import JS LinkedinScraper Examples.

Lemma set_add_NoDup (acc : list string) (x : string) :
  NoDup acc -> NoDup (set_add acc x).
Proof.
  intros Hacc. unfold set_add. case_bool_decide as Hin; [done|].
  apply NoDup_app. split_and!; [done | | apply NoDup_singleton].
  intros y Hy Hy'. apply list_elem_of_singleton in Hy'. by subst.
Qed.

Lemma fold_set_add_NoDup (xs acc : list string) :
  NoDup acc -> NoDup (fold_left set_add xs acc).
Proof.
  revert acc. induction xs as [|x xs IH]; intros acc Hacc; simpl; [done|].
  by apply IH, set_add_NoDup.
Qed.

(** [[...new Set(xs)]] has no repeated element. *)
Lemma spread_set_NoDup (xs : list string) : NoDup (spread_set xs).
Proof. apply fold_set_add_NoDup, NoDup_nil_2. Qed.

Lemma fold_set_add_elem (xs acc : list string) (y : string) :
  y ∈ fold_left set_add xs acc <-> y ∈ acc \/ y ∈ xs.
Proof.
  revert acc. induction xs as [|x xs IH]; intros acc; simpl.
  - split; [by left | intros [H|H]; [done | by apply elem_of_nil in H]].
  - rewrite IH. unfold set_add. case_bool_decide as Hin.
    + rewrite elem_of_cons. split; [intros [?|?]; auto | ].
      intros [?|[->|?]]; auto.
    + rewrite elem_of_app, list_elem_of_singleton, elem_of_cons.
      split; [intros [[?|?]|?] | intros [?|[?|?]]]; auto.
Qed.

(** ... and holds exactly the elements of [xs]. *)
Lemma spread_set_elem (xs : list string) (y : string) :
  y ∈ spread_set xs <-> y ∈ xs.
Proof.
  unfold spread_set. rewrite fold_set_add_elem. split; [|by right].
  intros [H|H]; [by apply elem_of_nil in H | done].
Qed.

(** The classifier only returns one of the five job types. *)
Lemma classify_enumerated (s : string) :
  classify s ∈ ["faculty"; "government"; "international"; "nonprofit"; "industry"].
Proof.
  unfold classify.
  repeat match goal with |- context [if ?b then _ else _] => destruct b end;
    set_solver.
Qed.

(** The callback returns a record only when the position and the
    company are strings; the record's computed fields are then these. *)
Lemma processJob_Ok_inv today combo job rec :
  processJob today combo job = Ok rec ->
  exists p c, position job = VStr p /\ raw_company job = VStr c /\
    job_type rec = classify (toLowerCase c) /\
    tags rec = spread_set (collect_tags (toLowerCase p) (keyword combo)) /\
    category rec = "research" /\ relevance_score rec = 60.
Proof.
  unfold processJob, determineJobType, generateTags.
  destruct (raw_company job) as [| |b|c]; simpl; try discriminate.
  destruct (position job) as [| |b|p]; simpl; try discriminate.
  intros H. exists p, c.
  destruct (String.eqb (location combo) "Remote"); simpl in H.
  - injection H as <-. by simpl.
  - destruct (location_mentions_remote (raw_location job)); simpl in H;
      [|discriminate].
    injection H as <-. by simpl.
Qed.

Lemma processJob_Throw_company today combo job :
  (forall c, raw_company job <> VStr c) ->
  processJob today combo job = Throw TypeError.
Proof.
  intros Hc. unfold processJob, determineJobType.
  destruct (raw_company job) as [| |b|c]; simpl; try done.
  by destruct (Hc c).
Qed.

(** C3 (the code at the failing inputs): on a raw record without a
    company, and on one whose position is null, the callback raises a
    TypeError instead of returning a Job Record; the enclosing [try]
    then drops every record of the same query, the complete one
    included. *)
Theorem processJob_missing_field_throws :
  processJob "2025-01-02" example_combo raw_without_company = Throw TypeError
  /\ processJob "2025-01-02" example_combo raw_without_position = Throw TypeError
  /\ collect "2025-01-02" [] example_combo [raw_complete; raw_without_company] = [].
Proof. split_and!; reflexivity. Qed.

(** C6: on every company name the classifier returns what the ordered
    rule list university/college, government/federal, united
    nations/oecd, foundation/nonprofit, otherwise industry gives on the
    lower-cased name with the first matching rule winning; the result
    does not depend on the case of the name; "University of Law
    Foundation" is classified as faculty, in either case, and "National
    Science Foundation" as nonprofit. *)
Theorem determineJobType_first_match :
  (forall company : string,
      determineJobType (VStr company) =
      Ok (Spec.first_match Spec.job_type_rules "industry" (toLowerCase company)))
  /\ determineJobType (VStr "University of Law Foundation") = Ok "faculty".
Proof.
  split; [|reflexivity].
  intros company. unfold determineJobType, classify. simpl.
  by rewrite !orb_false_r.
Qed.

(** C9: every Job Record the callback returns has a relevance score in
    [0, 100], one of the five job types, the category research, and a
    tag list without repeated strings. *)
Theorem processJob_invariants today combo job rec :
  processJob today combo job = Ok rec ->
  0 <= relevance_score rec <= 100
  /\ job_type rec ∈ ["faculty"; "government"; "international"; "nonprofit"; "industry"]
  /\ category rec ∈ ["law"; "policy"; "technical"; "research"]
  /\ NoDup (tags rec).
Proof.
  intros H. apply processJob_Ok_inv in H as (p & c & _ & _ & Hjt & Htags & Hcat & Hrel).
  rewrite Hrel, Hjt, Htags, Hcat. split_and!; try lia.
  - apply classify_enumerated.
  - set_solver.
  - apply spread_set_NoDup.
Qed.

Lemma processJob_invariants_witness :
  processJob "2025-01-02" example_combo raw_complete =
    Ok {| title := VStr "Senior AI Ethics Fellow"; company := VStr "MIT";
          job_location := VStr "Cambridge, MA"; job_type := "industry";
          category := "research";
          description :=
            "LinkedIn: Senior AI Ethics Fellow at MIT. Query: AI ethics";
          posting_date := VStr "2025-01-01"; deadline := VNull;
          source_url := VStr "http://x/1"; source_site := "linkedin";
          tags := ["AI ethics"; "AI"; "Ethics"; "Senior"];
          relevance_score := 60; salary_info := VStr "";
          is_remote := VBool false; search_query := "AI ethics";
          experience_level := ""; company_logo := VStr "";
          ago_time := VStr ""; job_gemini_analyze := VBool false |}
  /\ NoDup ["AI ethics"; "AI"; "Ethics"; "Senior"].
Proof.
  split; [reflexivity|].
  exact (proj2 (proj2 (proj2
    (processJob_invariants "2025-01-02" example_combo raw_complete _ eq_refl)))).
Defined.

End Scraper.

(** ** Theorems: integrate_data.py *)

Section Integration.
Import IntegrateData Examples.

(** *** Identity *)

Lemma str_truthy_true (s : string) : s <> "" -> str_truthy s = true.
Proof. destruct s; [done | reflexivity]. Qed.

(** C4: the identifier is the source URL itself when the record has a
    non-empty one, and title, "-", company otherwise; two records with the
    same non-empty source URL have the same identifier whatever their other
    fields. *)
Theorem identifier_resolution (job : Job) :
  (forall url, source_url job = Some url -> url <> "" -> identifier job = url)
  /\ (source_url job = None \/ source_url job = Some "" ->
      identifier job = get (title job) "" +:+ "-" +:+ get (company job) "")
  /\ (forall job' url, source_url job = Some url -> source_url job' = Some url ->
      url <> "" -> identifier job = identifier job').
Proof.
  unfold identifier. split_and!.
  - intros url -> Hne. simpl. by rewrite str_truthy_true.
  - by intros [-> | ->].
  - intros job' url -> -> Hne. simpl. by rewrite str_truthy_true.
Qed.

Lemma identifier_resolution_witness :
  identifier academic_fellow = "http://x/1"
  /\ identifier no_url = "Postdoc-ETH"
  /\ identifier academic_fellow = identifier linkedin_fellow.
Proof.
  destruct (identifier_resolution academic_fellow) as (Hurl & _ & Hsame).
  destruct (identifier_resolution no_url) as (_ & Hfallback & _).
  split_and!.
  - apply Hurl; [reflexivity | discriminate].
  - apply Hfallback. left. reflexivity.
  - apply (Hsame linkedin_fellow "http://x/1"); [reflexivity | reflexivity | discriminate].
Defined.

(** *** The deduplication loop *)

(** The loop appends to [unique_jobs] what the recursive reading keeps. *)
Lemma fold_dedup_step (l : list Job) (seen : gset string) (u : list Job) :
  (fold_left dedup_step l (seen, u)).2 = u ++ Spec.keep_first seen l.
Proof.
  revert seen u. induction l as [|job l IH]; intros seen u; simpl.
  - by rewrite app_nil_r.
  - case_bool_decide; rewrite IH; [|done].
    by rewrite <- app_assoc.
Qed.

Lemma unique_jobs_of_keep_first (l : list Job) :
  unique_jobs_of l = Spec.keep_first ∅ l.
Proof. unfold unique_jobs_of, dedup_loop. by rewrite fold_dedup_step. Qed.

Lemma keep_first_sublist (l : list Job) (seen : gset string) :
  Spec.keep_first seen l `sublist_of` l.
Proof.
  revert seen. induction l as [|job l IH]; intros seen; simpl.
  - constructor.
  - case_bool_decide; by constructor.
Qed.

Lemma keep_first_not_seen (l : list Job) (seen : gset string) (x : Job) :
  x ∈ Spec.keep_first seen l -> identifier x ∉ seen.
Proof.
  revert seen. induction l as [|job l IH]; intros seen; simpl.
  - intros H. by apply elem_of_nil in H.
  - case_bool_decide as Hid.
    + rewrite elem_of_cons. intros [-> | H]; [done|].
      apply IH in H. set_solver.
    + apply IH.
Qed.

Lemma keep_first_NoDup (l : list Job) (seen : gset string) :
  NoDup (identifier <$> Spec.keep_first seen l).
Proof.
  revert seen. induction l as [|job l IH]; intros seen; simpl.
  - constructor.
  - case_bool_decide as Hid; [|apply IH].
    rewrite fmap_cons. apply NoDup_cons. split; [|apply IH].
    intros Hin. apply list_elem_of_fmap in Hin as (x & Hx & Hin).
    apply keep_first_not_seen in Hin. set_solver.
Qed.

(** The kept records with identity [i]: none when [i] was seen before, the
    first record of the input with that identity otherwise. *)
Lemma keep_first_with_identity (l : list Job) (seen : gset string) (i : string) :
  Spec.with_identity i (Spec.keep_first seen l) =
  if bool_decide (i ∈ seen) then []
  else option_list (head (Spec.with_identity i l)).
Proof.
  unfold Spec.with_identity.
  revert seen. induction l as [|job l IH]; intros seen; simpl.
  - by case_bool_decide.
  - case_bool_decide as Hid.
    + rewrite !filter_cons. case_decide as Heq.
      * subst i. rewrite IH.
        rewrite bool_decide_eq_true_2 by set_solver.
        by rewrite bool_decide_eq_false_2.
      * rewrite IH.
        rewrite (bool_decide_ext (i ∈ {[identifier job]} ∪ seen) (i ∈ seen)); [done|].
        rewrite elem_of_union, elem_of_singleton.
        split; [intros [?|?]; [congruence | done] | by right].
    + rewrite IH. case_bool_decide as Hi; [done|].
      rewrite filter_cons_False; [done|]. intros Heq. apply Hi. by rewrite <- Heq.
Qed.

(** C5: the output of the deduplication loop holds no identity twice, and
    for every identity the records it holds with that identity are exactly
    the first record of the input with that identity (none when the input
    has none); so when the input is the arrays [A] then [B] and a record of
    [A] has the identity, the record kept is the first such record of
    [A]. *)
Theorem unique_jobs_first_occurrence (all_jobs : list Job) :
  NoDup (identifier <$> unique_jobs_of all_jobs)
  /\ (forall i, Spec.with_identity i (unique_jobs_of all_jobs) =
                option_list (head (Spec.with_identity i all_jobs)))
  /\ (forall A B a, all_jobs = A ++ B -> a ∈ A ->
        exists a', head (Spec.with_identity (identifier a) A) = Some a'
                   /\ Spec.with_identity (identifier a) (unique_jobs_of all_jobs) = [a']).
Proof.
  rewrite unique_jobs_of_keep_first.
  assert (Hfirst : forall i, Spec.with_identity i (Spec.keep_first ∅ all_jobs) =
                             option_list (head (Spec.with_identity i all_jobs))).
  { intros i. rewrite keep_first_with_identity.
    by rewrite bool_decide_eq_false_2 by set_solver. }
  split_and!; [apply keep_first_NoDup | done |].
  intros A B a -> Ha. rewrite Hfirst. unfold Spec.with_identity.
  rewrite filter_app.
  assert (Hin : a ∈ filter (fun j => identifier j = identifier a) A)
    by (by apply list_elem_of_filter).
  destruct (filter (fun j => identifier j = identifier a) A) as [|a' k].
  - by apply elem_of_nil in Hin.
  - by exists a'.
Qed.

Lemma unique_jobs_first_occurrence_witness :
  exists a', head (Spec.with_identity "http://x/1" [academic_fellow; job30]) = Some a'
    /\ Spec.with_identity "http://x/1"
         (unique_jobs_of ([academic_fellow; job30] ++ [linkedin_fellow; unscored])) = [a'].
Proof.
  exact (proj2 (proj2 (unique_jobs_first_occurrence
           ([academic_fellow; job30] ++ [linkedin_fellow; unscored])))
         [academic_fellow; job30] [linkedin_fellow; unscored] academic_fellow
         eq_refl (list_elem_of_here _ _)).
Defined.

(** A sublist is the original list read at strictly increasing positions. *)
Lemma StronglySorted_lt_fmap_S (pos : list nat) :
  StronglySorted lt pos -> StronglySorted lt (S <$> pos).
Proof.
  induction 1 as [|i pos Hs IH Hall]; simpl; constructor; [done|].
  apply Forall_fmap. eapply Forall_impl; [exact Hall|].
  intros j Hj. simpl. lia.
Qed.

Lemma sublist_increasing_positions {A} (k l : list A) :
  k `sublist_of` l -> exists pos, Spec.increasing_positions pos k l.
Proof.
  induction 1 as [|x k l Hs [pos [Hpos Hsorted]]|x k l Hs [pos [Hpos Hsorted]]].
  - exists []. split; constructor.
  - exists (0%nat :: (S <$> pos)). split.
    + constructor; [done|]. by apply Forall2_fmap_l.
    + constructor; [by apply StronglySorted_lt_fmap_S|].
      apply Forall_fmap, Forall_forall. intros j _. simpl. lia.
  - exists (S <$> pos). split.
    + by apply Forall2_fmap_l.
    + by apply StronglySorted_lt_fmap_S.
Qed.

(** C10: the output of the deduplication loop is a subsequence of its
    input: its records are the input's records at strictly increasing
    positions, so the loop never reorders what it keeps. *)
Theorem unique_jobs_subsequence (all_jobs : list Job) :
  unique_jobs_of all_jobs `sublist_of` all_jobs
  /\ exists pos, Spec.increasing_positions pos (unique_jobs_of all_jobs) all_jobs.
Proof.
  assert (Hs : unique_jobs_of all_jobs `sublist_of` all_jobs).
  { rewrite unique_jobs_of_keep_first. apply keep_first_sublist. }
  split; [done | by apply sublist_increasing_positions].
Qed.

(** A list without repeated identity, none of them seen, is kept whole. *)
Lemma keep_first_fixed (k : list Job) (seen : gset string) :
  NoDup (identifier <$> k) ->
  Forall (fun x => identifier x ∉ seen) k ->
  Spec.keep_first seen k = k.
Proof.
  revert seen. induction k as [|x k IH]; intros seen Hnd Hall; simpl; [done|].
  rewrite fmap_cons in Hnd. apply NoDup_cons in Hnd as [Hx Hnd].
  apply Forall_cons in Hall as [Hseen Hall].
  rewrite bool_decide_eq_true_2 by done. f_equal. apply IH; [done|].
  apply Forall_forall. intros y Hy.
  rewrite Forall_forall in Hall. specialize (Hall y Hy).
  rewrite elem_of_union, elem_of_singleton. intros [Heq | Hin]; [|done].
  apply Hx. rewrite <- Heq. by apply list_elem_of_fmap_2.
Qed.

(** Running the loop on its own output changes nothing. *)
Lemma unique_jobs_of_idempotent (l : list Job) :
  unique_jobs_of (unique_jobs_of l) = unique_jobs_of l.
Proof.
  rewrite !unique_jobs_of_keep_first. apply keep_first_fixed.
  - apply keep_first_NoDup.
  - apply Forall_forall. intros x _. apply not_elem_of_empty.
Qed.

(** The same posting staged by the academic source and by LinkedIn is
    published once, in the version of the source read first. *)
Example integrate_same_posting :
  jobs (integrate "t1" "t2" (Some {| jobs_key := Some [academic_fellow] |}) None
          (Some {| jobs_key := Some [linkedin_fellow] |}))
  = [academic_fellow].
Proof. reflexivity. Qed.

(** With no staging file at all the dataset is empty, not an error. *)
Example integrate_nothing :
  jobs (integrate "t1" "t2" None None None) = []
  /\ total_jobs (stats (integrate "t1" "t2" None None None)) = 0.
Proof. split; reflexivity. Qed.

(** *** The sort by relevance *)

Section Sorting.
Context {A : Type} (key : A -> Z).

Lemma insert_desc_Permutation (x : A) (l : list A) :
  insert_desc key x l ≡ₚ x :: l.
Proof.
  induction l as [|y l IH]; simpl; [done|].
  destruct (key x <? key y); [|done].
  rewrite IH. apply Permutation_swap.
Qed.

Lemma sort_reverse_Permutation (l : list A) : sort_reverse key l ≡ₚ l.
Proof.
  induction l as [|x l IH]; simpl; [done|].
  rewrite insert_desc_Permutation. by constructor.
Qed.

Lemma insert_desc_sorted (x : A) (l : list A) :
  StronglySorted (fun a b => key b <= key a) l ->
  StronglySorted (fun a b => key b <= key a) (insert_desc key x l).
Proof.
  induction 1 as [|y l Hs IH Hall]; simpl.
  - repeat constructor.
  - destruct (Z.ltb_spec (key x) (key y)) as [Hlt|Hge].
    + constructor; [done|].
      rewrite insert_desc_Permutation. constructor; [lia | done].
    + constructor; [by constructor|].
      constructor; [done|].
      eapply Forall_impl; [exact Hall|]. intros z Hz. simpl in *. lia.
Qed.

Lemma sort_reverse_sorted (l : list A) :
  StronglySorted (fun a b => key b <= key a) (sort_reverse key l).
Proof.
  induction l as [|x l IH]; simpl; [constructor | by apply insert_desc_sorted].
Qed.

Lemma insert_desc_filter (k : Z) (x : A) (l : list A) :
  filter (fun j => key j = k) (insert_desc key x l) =
  filter (fun j => key j = k) (x :: l).
Proof.
  induction l as [|y l IH]; simpl; [done|].
  destruct (Z.ltb_spec (key x) (key y)) as [Hlt|Hge]; [|done].
  rewrite (filter_cons _ y), IH, !filter_cons.
  repeat case_decide; try done; lia.
Qed.

(** Stability: the elements with a given key come out in input order. *)
Lemma sort_reverse_stable (k : Z) (l : list A) :
  filter (fun j => key j = k) (sort_reverse key l) =
  filter (fun j => key j = k) l.
Proof.
  induction l as [|x l IH]; simpl; [done|].
  by rewrite insert_desc_filter, !filter_cons, IH.
Qed.

(** Sorting commutes with a change of the elements that keeps the keys. *)
Lemma insert_desc_fmap (f : A -> A) (x : A) (l : list A) :
  (forall a, key (f a) = key a) ->
  insert_desc key (f x) (f <$> l) = f <$> insert_desc key x l.
Proof.
  intros Hf. induction l as [|y l IH]; [done|].
  rewrite fmap_cons. cbn [insert_desc]. rewrite !Hf.
  destruct (key x <? key y); [by rewrite fmap_cons, IH | done].
Qed.

Lemma sort_reverse_fmap (f : A -> A) (l : list A) :
  (forall a, key (f a) = key a) ->
  sort_reverse key (f <$> l) = f <$> sort_reverse key l.
Proof.
  intros Hf. unfold sort_reverse. induction l as [|x l IH]; [done|].
  rewrite fmap_cons. cbn [foldr]. rewrite IH. by apply insert_desc_fmap.
Qed.

End Sorting.

(** C7: the ranked list is a rearrangement of the input that is
    non-increasing in the sort key (the relevance score, where the record
    has one), and the records with a given score come out in their input
    order; the scores 40, 90, 90, 60 come out as the first 90, the second
    90, 60, 40. *)
Theorem rank_sorted_stable (unique_jobs : list Job) :
  rank unique_jobs ≡ₚ unique_jobs
  /\ StronglySorted (fun x y => sort_key y <= sort_key x) (rank unique_jobs)
  /\ (forall score, filter (fun j => sort_key j = score) (rank unique_jobs) =
                    filter (fun j => sort_key j = score) unique_jobs)
  /\ rank [job40; job90a; job90b; job60] = [job90a; job90b; job60; job40].
Proof.
  unfold rank. split_and!.
  - apply sort_reverse_Permutation.
  - apply sort_reverse_sorted.
  - intros score. apply sort_reverse_stable.
  - reflexivity.
Qed.

Lemma sort_key_with_score_0 (j : Job) : sort_key (Spec.with_score 0 j) = sort_key j.
Proof. unfold sort_key. simpl. by destruct (relevance_score j). Qed.

(** C1 (as stated, at a concrete input): the record [unscored] has no
    relevance score, its sort key is 0 and not 60, and it is ranked behind
    a record of score 30, where a record of score 60 stays in front. *)
Lemma rank_default_is_not_60 :
  relevance_score unscored = None
  /\ sort_key unscored = 0
  /\ sort_key unscored <> 60
  /\ rank [unscored; job30] = [job30; unscored]
  /\ rank [Spec.with_score 60 unscored; job30] = [Spec.with_score 60 unscored; job30].
Proof. split_and!; done. Qed.

(** C1 (amended): a record without a relevance score is sorted with the
    key 0, and ranking orders such records as if their score were 0:
    filling in 0 for the missing scores before ranking or after it gives
    the same list. *)
Theorem rank_default_is_0 :
  (forall x : Job, relevance_score x = None -> sort_key x = 0)
  /\ (forall l : list Job,
        rank (Spec.with_score 0 <$> l) = Spec.with_score 0 <$> rank l).
Proof.
  split.
  - intros x Hx. unfold sort_key. by rewrite Hx.
  - intros l. apply sort_reverse_fmap, sort_key_with_score_0.
Qed.

Lemma rank_default_is_0_witness : sort_key unscored = 0.
Proof. exact (proj1 rank_default_is_0 unscored eq_refl). Defined.

(** *** The statistics *)

Lemma len_app {A} (l k : list A) : len (l ++ k) = len l + len k.
Proof. unfold len. rewrite length_app. lia. Qed.

Lemma len_rank (l : list Job) : len (rank l) = len l.
Proof.
  unfold len, rank. by rewrite (Permutation_length (sort_reverse_Permutation _ l)).
Qed.

Lemma len_unique_jobs_of (l : list Job) : len (unique_jobs_of l) <= len l.
Proof.
  unfold len. rewrite unique_jobs_of_keep_first.
  pose proof (sublist_length _ _ (keep_first_sublist l ∅)). lia.
Qed.

(** C8: whatever the three staging files hold, the counter
    [duplicates_removed] is the sum of the per-source counts of the
    statistics, which are the lengths of the three job arrays as loaded,
    minus the number of records of the final list; it is never negative. *)
Theorem duplicates_removed_arithmetic (now1 now2 : string)
    (academic_file rss_file linkedin_file : option SourceData) :
  let master_data := integrate now1 now2 academic_file rss_file linkedin_file in
  let s := stats master_data in
  duplicates_removed s =
    (academic (sources s) + jsearch (sources s) + rss (sources s)
     + linkedin (sources s)) - len (jobs master_data)
  /\ duplicates_removed s =
    (academic_jobs s + jsearch_jobs s + rss_jobs s + linkedin_jobs s) - total_jobs s
  /\ academic (sources s) = len (jobs_of (load_json_safely academic_file))
  /\ jsearch (sources s) = 0
  /\ rss (sources s) = len (jobs_of (load_json_safely rss_file))
  /\ linkedin (sources s) = len (jobs_of (load_json_safely linkedin_file))
  /\ 0 <= duplicates_removed s.
Proof.
  simpl. unfold combine. rewrite !len_app, !len_rank. simpl.
  split_and!; try reflexivity; try (unfold len at 1; simpl; lia).
  pose proof (len_unique_jobs_of
    (jobs_of (load_json_safely academic_file) ++
     jobs_of (load_json_safely rss_file) ++
     jobs_of (load_json_safely linkedin_file))) as Hle.
  rewrite !len_app in Hle. rewrite <- !app_assoc. simpl. unfold len at 1. simpl. lia.
Qed.

(** *** Saving the master file *)

Lemma string_app_nil_r (s : string) : s +:+ "" = s.
Proof.
  induction s as [|c s IH]; [done|].
  change (String c (s +:+ "") = String c s). by rewrite IH.
Qed.

Lemma string_app_assoc (s t u : string) : (s +:+ t) +:+ u = s +:+ t +:+ u.
Proof.
  induction s as [|c s IH]; [done|].
  change (String c ((s +:+ t) +:+ u) = String c (s +:+ t +:+ u)). by rewrite IH.
Qed.

Lemma string_take_prefix (n : nat) (s : string) :
  exists rest, s = string_take n s +:+ rest.
Proof.
  revert s. induction n as [|n IH]; intros s; [by exists s|].
  destruct s as [|c s]; [by exists ""|].
  destruct (IH s) as [rest Hrest]. exists rest.
  change (String c s = String c (string_take n s +:+ rest)). by rewrite <- Hrest.
Qed.

Lemma text_app (l k : list string) : Spec.text (l ++ k) = Spec.text l +:+ Spec.text k.
Proof.
  induction l as [|c l IH]; [done|].
  change (c +:+ Spec.text (l ++ k) = (c +:+ Spec.text l) +:+ Spec.text k).
  by rewrite IH, string_app_assoc.
Qed.

(** An operation leaves every path but its own as it was. *)
Lemma exec_op_other (st : fs_state) (op : fs_op) (path : string) :
  path <> op_path op ->
  disk (exec_op st op) !! path = disk st !! path
  /\ pending (exec_op st op) !! path = pending st !! path.
Proof.
  intros Hne. destruct op as [p | p c | p]; simpl in *.
  - by rewrite !lookup_insert_ne.
  - destruct (pending st !! p); simpl; [|done]. by rewrite lookup_insert_ne.
  - destruct (pending st !! p); simpl; [|done].
    by rewrite lookup_insert_ne, lookup_delete_ne.
Qed.

Lemma fold_exec_op_other (ops : list fs_op) (st : fs_state) (path : string) :
  Forall (fun op => path <> op_path op) ops ->
  disk (fold_left exec_op ops st) !! path = disk st !! path
  /\ pending (fold_left exec_op ops st) !! path = pending st !! path.
Proof.
  revert st. induction ops as [|op ops IH]; intros st Hall; simpl; [done|].
  apply Forall_cons in Hall as [Hop Hall].
  destruct (IH (exec_op st op) Hall) as [IH1 IH2].
  destruct (exec_op_other st op path Hop) as [H1 H2].
  by rewrite IH1, IH2, H1, H2.
Qed.

Lemma save_master_file_paths (chunks : list string) :
  Forall (fun op => op_path op = master_file) (save_master_file chunks).
Proof.
  unfold save_master_file. constructor; [done|].
  apply Forall_app. split; [|by repeat constructor].
  apply Forall_fmap, Forall_forall. by intros c _.
Qed.

(** The first [m] writes add the first [m] chunks to what is pending for
    the open master file, and leave the disk as it is. *)
Lemma fold_writes (chunks : list string) (m : nat) (d p : gmap string string) :
  fold_left exec_op (take m (map (Write master_file) chunks))
            {| disk := d; pending := <[master_file := ""]> p |}
  = {| disk := d;
       pending := <[master_file := Spec.text (take m chunks)]> p |}.
Proof.
  assert (Hgen : forall text,
    fold_left exec_op (take m (map (Write master_file) chunks))
              {| disk := d; pending := <[master_file := text]> p |}
    = {| disk := d;
         pending := <[master_file := text +:+ Spec.text (take m chunks)]> p |});
    [|apply (Hgen "")].
  revert m. induction chunks as [|c chunks IH]; intros m text.
  - simpl. rewrite !take_nil. simpl. by rewrite string_app_nil_r.
  - destruct m as [|m]; simpl; [by rewrite string_app_nil_r|].
    rewrite lookup_insert_eq, insert_insert_eq, IH.
    by rewrite string_app_assoc.
Qed.

(** The state of the save after the open and the first [m] writes. *)
Lemma exec_save_open (chunks : list string) (m : nat) (fs : gmap string string) :
  (m <= length chunks)%nat ->
  exec (take (S m) (save_master_file chunks)) fs
  = {| disk := <[master_file := ""]> fs;
       pending := {[master_file := Spec.text (take m chunks)]} |}.
Proof.
  intros Hm. unfold exec, save_master_file. rewrite firstn_cons.
  rewrite take_app_le by (by rewrite length_map).
  cbn [fold_left exec_op disk pending]. by rewrite fold_writes, insert_empty.
Qed.

(** The state of the save at its end. *)
Lemma exec_save (chunks : list string) (fs : gmap string string) :
  exec (save_master_file chunks) fs
  = {| disk := <[master_file := Spec.text chunks]> fs; pending := ∅ |}.
Proof.
  unfold exec, save_master_file.
  change (OpenW master_file :: ?l ++ ?k) with ([OpenW master_file] ++ l ++ k).
  rewrite !fold_left_app. cbn [fold_left exec_op disk pending].
  rewrite <- (take_ge (map (Write master_file) chunks) (length chunks))
    by (by rewrite length_map).
  rewrite fold_writes, take_ge by done. simpl.
  by rewrite lookup_insert_eq, insert_insert_eq, delete_insert_eq, delete_empty.
Qed.

(** A complete save, as a change of the file system. *)
Lemma run_save_master_file (chunks : list string) (fs : gmap string string) :
  run (save_master_file chunks) fs = <[master_file := Spec.text chunks]> fs.
Proof. unfold run. rewrite exec_save. simpl. apply (left_id_L ∅ (∪)). Qed.

(** C2 (as stated, at a concrete input): with an earlier dataset at the
    published path, a run that stops after the open, or after the first of
    two chunks was written, leaves at the published path the empty text,
    or the first chunk if that had been flushed: the earlier dataset is
    gone and the new one is incomplete; and the published path is the only
    path of the file system, before and after. *)
Lemma save_master_file_not_atomic :
  published_before !! master_file = Some "old dataset"
  /\ run (save_master_file ["{"; "}"]) published_before !! master_file = Some "{}"
  /\ run_until 1 0 (save_master_file ["{"; "}"]) published_before !! master_file
     = Some ""
  /\ run_until 2 0 (save_master_file ["{"; "}"]) published_before !! master_file
     = Some ""
  /\ run_until 2 1 (save_master_file ["{"; "}"]) published_before !! master_file
     = Some "{"
  /\ run_until 2 1 (save_master_file ["{"; "}"]) published_before !! master_file
     <> published_before !! master_file
  /\ map_to_list published_before = [(master_file, "old dataset")]
  /\ map_to_list (run_until 2 1 (save_master_file ["{"; "}"]) published_before)
     = [(master_file, "{")].
Proof.
  split; [by vm_compute|]. split; [by vm_compute|]. split; [by vm_compute|].
  split; [by vm_compute|]. split; [by vm_compute|].
  split; [vm_compute; discriminate|]. split; vm_compute; reflexivity.
Qed.

(** C2 (amended): the save writes in place. A complete run leaves the
    whole text at the published path. A run that stops after the open and
    before the close leaves there what had been flushed of the chunks
    written so far, which is a prefix, possibly empty, of the whole text;
    what the path held before is gone. No run, complete or not, changes
    another path, so nothing is written to a temporary location and
    nothing is renamed. *)
Theorem save_master_file_in_place (chunks : list string) (fs : gmap string string) :
  run (save_master_file chunks) fs !! master_file = Some (Spec.text chunks)
  /\ (forall n flushed, (0 < n <= S (length chunks))%nat ->
        run_until n flushed (save_master_file chunks) fs !! master_file
        = Some (string_take flushed (Spec.text (take (n - 1) chunks))))
  /\ (forall n flushed, (0 < n)%nat ->
        exists content rest,
          run_until n flushed (save_master_file chunks) fs !! master_file
          = Some content
          /\ Spec.text chunks = content +:+ rest)
  /\ (forall n flushed path, path <> master_file ->
        run_until n flushed (save_master_file chunks) fs !! path = fs !! path).
Proof.
  assert (Hopen : forall n flushed, (0 < n <= S (length chunks))%nat ->
            run_until n flushed (save_master_file chunks) fs !! master_file
            = Some (string_take flushed (Spec.text (take (n - 1) chunks)))).
  { intros n flushed Hn. destruct n as [|m]; [lia|].
    replace (S m - 1)%nat with m by lia.
    unfold run_until. rewrite exec_save_open by lia. simpl.
    apply lookup_union_Some_l. by rewrite map_fmap_singleton, lookup_singleton_eq. }
  split_and!.
  - by rewrite run_save_master_file, lookup_insert_eq.
  - done.
  - intros n flushed Hn.
    destruct (decide (n <= S (length chunks))%nat) as [Hle|Hgt].
    + destruct (string_take_prefix flushed (Spec.text (take (n - 1) chunks)))
        as [rest Hrest].
      exists (string_take flushed (Spec.text (take (n - 1) chunks))),
             (rest +:+ Spec.text (drop (n - 1) chunks)).
      split; [by apply Hopen|].
      rewrite <- (take_drop (n - 1) chunks) at 1.
      rewrite text_app, Hrest at 1. by rewrite string_app_assoc.
    + exists (Spec.text chunks), "". split; [|by rewrite string_app_nil_r].
      unfold run_until. rewrite take_ge
        by (unfold save_master_file; simpl; rewrite length_app, length_map; simpl; lia).
      rewrite exec_save. simpl. rewrite fmap_empty, (left_id_L ∅ (∪)).
      by rewrite lookup_insert_eq.
  - intros n flushed path Hne. unfold run_until, exec.
    destruct (fold_exec_op_other (take n (save_master_file chunks))
                {| disk := fs; pending := ∅ |} path) as [Hd Hp].
    { apply Forall_take. eapply Forall_impl; [apply save_master_file_paths|].
      intros op Hop. simpl in *. by rewrite Hop. }
    simpl in Hd, Hp. rewrite lookup_union_r; [done|].
    by rewrite lookup_fmap, Hp.
Qed.

Lemma save_master_file_in_place_witness :
  run_until 2 1 (save_master_file ["{"; "}"]) published_before !! master_file
    = Some (string_take 1 (Spec.text (take (2 - 1) ["{"; "}"])))
  /\ run_until 2 1 (save_master_file ["{"; "}"]) published_before !! "data/jobs.json"
    = published_before !! "data/jobs.json".
Proof.
  destruct (save_master_file_in_place ["{"; "}"] published_before)
    as (_ & Hopen & _ & Hother).
  split; [apply Hopen; simpl; lia | apply Hother; discriminate].
Defined.

End Integration.

(** ** Further theorems: linkedin_scraper.js *)

Section ScraperLoop.
Import JS LinkedinScraper ScrapeLoop Examples Props.

Lemma or_defined (a b : jsval) : defined b -> defined (or a b).
Proof.
  intros Hb. unfold or. destruct (truthy a) eqn:Ha; [|done].
  by destruct a.
Qed.

Lemma or_nonempty_string (a : jsval) (d : string) :
  (a = VUndefined \/ a = VNull \/ exists s, a = VStr s) -> d <> "" ->
  nonempty_string (or a (VStr d)).
Proof.
  intros [->|[->|[s ->]]] Hd; unfold or; simpl; try by exists d.
  destruct (String.eqb_spec s ""); simpl; [by exists d | by exists s].
Qed.

(** X1: the callback returns a record exactly when the position and the
    company of the raw record are strings and, unless the query was for the
    location Remote, the location of the raw record is not a boolean; in
    every other case it raises a TypeError. *)
Theorem processJob_returns_iff (today : string) (combo : Combo) (job : RawJob) :
  ((exists rec, processJob today combo job = Ok rec) <->
   (exists p, position job = VStr p) /\ (exists c, raw_company job = VStr c) /\
   (location combo = "Remote" \/ forall b, raw_location job <> VBool b))
  /\ ((forall rec, processJob today combo job <> Ok rec) <->
      processJob today combo job = Throw TypeError).
Proof.
  split.
  - unfold processJob, determineJobType, generateTags, location_mentions_remote.
    destruct (String.eqb_spec (location combo) "Remote") as [Hr|Hr];
      destruct (raw_company job) as [| |bc|c], (position job) as [| |bp|p],
        (raw_location job) as [| |bl|l]; simpl;
      (split;
       [ intros [rec H]; try discriminate; split_and!; eauto;
         right; intros b'; discriminate
       | intros ((p' & Hp) & (c' & Hc) & Hl); try discriminate; eauto ]).
    destruct Hl as [Hl|Hl]; [done | by destruct (Hl bl)].
  - destruct (processJob today combo job) as [rec|[]].
    + split; [intros H; by destruct (H rec) | discriminate].
    + split; [done | discriminate].
Qed.

Lemma processJob_Ok_fields (today : string) (combo : Combo)
    (job : RawJob) (rec : JobRecord) :
  processJob today combo job = Ok rec ->
  nonempty_string (title rec) /\ nonempty_string (company rec)
  /\ defined (job_location rec) /\ defined (posting_date rec)
  /\ defined (source_url rec) /\ defined (salary_info rec)
  /\ defined (company_logo rec) /\ defined (ago_time rec)
  /\ defined (job_gemini_analyze rec)
  /\ deadline rec = VNull /\ source_site rec = "linkedin"
  /\ search_query rec = keyword combo.
Proof.
  intros H.
  assert (Hpc : (exists p, position job = VStr p) /\ (exists c, raw_company job = VStr c)).
  { destruct (processJob_Ok_inv _ _ _ _ H) as (p & c & Hp & Hc & _). eauto. }
  destruct Hpc as [[p Hp] [c Hc]].
  unfold processJob, determineJobType, generateTags in H.
  rewrite Hp, Hc in H. simpl in H.
  destruct (if String.eqb (location combo) "Remote" then _ else _) as [r|e];
    simpl in H; [|discriminate].
  injection H as <-. simpl.
  split_and!; try done; try (apply or_defined; by split);
    apply or_nonempty_string; eauto; discriminate.
Qed.

(** X2: in a record the callback returns, the title and the company are
    non-empty strings (an empty position or company is replaced by the
    placeholder as a missing one would be), and every property other than
    [deadline] and [is_remote] is defined: none is undefined or null. *)
Theorem processJob_fields_defined (today : string) (combo : Combo)
    (job : RawJob) (rec : JobRecord) :
  processJob today combo job = Ok rec ->
  nonempty_string (title rec) /\ nonempty_string (company rec)
  /\ defined (job_location rec) /\ defined (posting_date rec)
  /\ defined (source_url rec) /\ defined (salary_info rec)
  /\ defined (company_logo rec) /\ defined (ago_time rec)
  /\ defined (job_gemini_analyze rec)
  /\ deadline rec = VNull /\ source_site rec = "linkedin"
  /\ search_query rec = keyword combo.
Proof. apply processJob_Ok_fields. Qed.

Lemma processJob_fields_defined_witness :
  nonempty_string (VStr "Senior AI Ethics Fellow") /\ nonempty_string (VStr "MIT").
Proof.
  destruct (processJob_fields_defined "2025-01-02" example_combo raw_complete _ eq_refl)
    as (Ht & Hc & _).
  exact (conj Ht Hc).
Defined.

(** X3: in a record the callback returns, [is_remote] is true exactly when
    the query was for the location Remote or the raw location is a string
    that contains "remote" in any case; it is false exactly when neither
    holds and the raw record has a location string; and it is undefined,
    not false, exactly when the query was for another location and the raw
    record has no location (the record's own location is then the query's). *)
Theorem processJob_is_remote (today : string) (combo : Combo)
    (job : RawJob) (rec : JobRecord) :
  processJob today combo job = Ok rec ->
  (is_remote rec = VBool true <->
     location combo = "Remote" \/
     exists l, raw_location job = VStr l /\ includes (toLowerCase l) "remote" = true)
  /\ (is_remote rec = VBool false <->
     location combo <> "Remote" /\
     exists l, raw_location job = VStr l /\ includes (toLowerCase l) "remote" = false)
  /\ (is_remote rec = VUndefined <->
     location combo <> "Remote" /\
     (raw_location job = VUndefined \/ raw_location job = VNull))
  /\ (raw_location job = VUndefined \/ raw_location job = VNull ->
      job_location rec = VStr (location combo)).
Proof.
  intros H.
  destruct (processJob_Ok_inv _ _ _ _ H) as (p & c & Hp & Hc & _).
  unfold processJob, determineJobType, generateTags, location_mentions_remote in H.
  rewrite Hp, Hc in H. simpl in H.
  destruct (String.eqb_spec (location combo) "Remote") as [Hr|Hr];
    destruct (raw_location job) as [| |bl|l]; simpl in H; try discriminate;
    injection H as <-; simpl.
  all: split_and!;
    first
      [ split; intros Hx;
        repeat match goal with
          | H : _ /\ _ |- _ => destruct H
          | H : _ \/ _ |- _ => destruct H
          | H : exists _, _ |- _ => destruct H
          end;
        simplify_eq; first [done | congruence | eauto 6]
      | intros [?|?]; by simplify_eq ].
Qed.

Lemma processJob_is_remote_witness :
  VBool false = VBool false <->
  "United States" <> "Remote" /\
  exists l, VStr "Cambridge, MA" = VStr l /\ includes (toLowerCase l) "remote" = false.
Proof.
  exact (proj1 (proj2
    (processJob_is_remote "2025-01-02" example_combo raw_complete _ eq_refl))).
Defined.

(** Filtering with two predicates that agree on the elements of the list. *)
Lemma filter_ext_elem {A} (P Q : A -> Prop) `{!forall x, Decision (P x)}
    `{!forall x, Decision (Q x)} (l : list A) :
  (forall x, x ∈ l -> (P x <-> Q x)) -> filter P l = filter Q l.
Proof.
  induction l as [|x l IH]; intros Hext; [done|].
  rewrite !filter_cons.
  rewrite IH by (intros y Hy; apply Hext; by right).
  pose proof (Hext x (list_elem_of_here _ _)) as Hx.
  destruct (decide (P x)), (decide (Q x)); try done; tauto.
Qed.

(** What a Set built from [acc] and then a duplicate-free list holds, in
    order. *)
Lemma fold_set_add_filter (l acc : list string) :
  NoDup l -> fold_left set_add l acc = acc ++ filter (fun x => x ∉ acc) l.
Proof.
  revert acc. induction l as [|x l IH]; intros acc Hnd; simpl.
  - by rewrite app_nil_r.
  - apply NoDup_cons in Hnd as [Hx Hnd]. rewrite IH by done.
    unfold set_add. rewrite filter_cons. case_bool_decide as Hin.
    + by rewrite decide_False by tauto.
    + rewrite decide_True by done. rewrite <- app_assoc. simpl. do 2 f_equal.
      apply filter_ext_elem. intros y Hy.
      rewrite not_elem_of_app, list_elem_of_singleton.
      split; [tauto|]. intros Hacc. split; [done|]. by intros ->.
Qed.

Lemma collect_tags_shape (content q : string) :
  exists pushed,
    collect_tags content q = q :: pushed /\ (pushed `sublist_of` content_tags).
Proof.
  unfold collect_tags, push_if, content_tags.
  destruct (includes content "ai" || includes content "artificial intelligence"),
    (includes content "ethics"), (includes content "policy"),
    (includes content "research"),
    (includes content "senior" || includes content "lead");
    simpl; eexists; (split; [reflexivity|]);
    repeat first [apply sublist_nil_l | apply sublist_skip | apply sublist_cons].
Qed.

(** The tag list for a lower-cased title and a search query. *)
Lemma tags_shape (content q : string) :
  exists rest, spread_set (collect_tags content q) = q :: rest
    /\ (q ∉ rest) /\ (rest `sublist_of` content_tags).
Proof.
  destruct (collect_tags_shape content q) as (pushed & Hc & Hsub).
  assert (Hnd : NoDup pushed).
  { eapply sublist_NoDup; [|exact Hsub]. unfold content_tags. compute_done. }
  exists (filter (fun x => x ∉ [q]) pushed). split_and!.
  - rewrite Hc. unfold spread_set. simpl. change (set_add [] q) with [q].
    by rewrite (fold_set_add_filter pushed [q]).
  - intros Hin. apply list_elem_of_filter in Hin as [Hq _].
    apply Hq, list_elem_of_here.
  - etrans; [apply sublist_filter | exact Hsub].
Qed.

(** X4: for every title string, the tag list starts with the search query
    and goes on with tags among AI, Ethics, Policy, Research, Senior, in
    that order and without the search query itself; so it has between one
    and six tags. *)
Theorem generateTags_shape (t q : string) :
  exists rest, generateTags (VStr t) q = Ok (q :: rest)
    /\ (q ∉ rest) /\ (rest `sublist_of` content_tags)
    /\ (1 <= length (q :: rest) <= 6)%nat.
Proof.
  destruct (tags_shape (toLowerCase t) q) as (rest & Htags & Hq & Hsub).
  exists rest. unfold generateTags. simpl. rewrite Htags.
  split_and!; try done; [simpl; lia|].
  apply sublist_length in Hsub. simpl in *. lia.
Qed.

Lemma array_map_Ok {A B} (f : A -> result B) (l : list A) (ys : list B) :
  array_map f l = Ok ys <-> Forall2 (fun x y => f x = Ok y) l ys.
Proof.
  revert ys. induction l as [|x l IH]; intros ys; simpl.
  - split; [intros [= <-]; constructor | by inversion 1].
  - destruct (f x) as [y|e] eqn:Hfx; simpl.
    + destruct (array_map f l) as [ys'|e]; simpl.
      * split.
        -- intros [= <-]. constructor; [done | by apply IH].
        -- inversion 1 as [|? y' ? ys'' Hy Hrest]; subst.
           apply IH in Hrest. congruence.
      * split; [discriminate|].
        inversion 1 as [|? y' ? ys'' Hy Hrest]; subst.
        by apply IH in Hrest.
    + split; [discriminate|]. inversion 1; congruence.
Qed.

Lemma array_map_Throw {A B} (f : A -> result B) (l : list A) :
  array_map f l = Throw TypeError <-> Exists (fun x => f x = Throw TypeError) l.
Proof.
  induction l as [|x l IH]; simpl.
  - split; [discriminate | by inversion 1].
  - rewrite Exists_cons. destruct (f x) as [y|[]]; simpl.
    + destruct (array_map f l) as [ys|[]]; simpl.
      * split; [discriminate|]. intros [?|H]; [done|]. by apply IH in H.
      * split; [intros _; right; by apply IH | done].
    + split; [by left | done].
Qed.

(** X5: one turn of the loop adds all the records of the query or none.
    Either the callback returns a record for every raw record and these are
    appended, in order, to what was collected before; or it raises on some
    raw record and what was collected before is kept as it was, the records
    of this query that could be processed being lost with the others. *)
Theorem collect_all_or_nothing (today : string) (allJobs : list JobRecord)
    (combo : Combo) (jobs : list RawJob) :
  (exists processed,
      Forall2 (fun job rec => processJob today combo job = Ok rec) jobs processed
      /\ collect today allJobs combo jobs = allJobs ++ processed)
  \/ (Exists (fun job => processJob today combo job = Throw TypeError) jobs
      /\ collect today allJobs combo jobs = allJobs).
Proof.
  unfold collect.
  destruct (array_map (processJob today combo) jobs) as [processed|[]] eqn:Hmap.
  - left. exists processed. split; [by apply array_map_Ok | done].
  - right. split; [by apply array_map_Throw | done].
Qed.

Lemma array_map_length {A B} (f : A -> result B) (l : list A) (ys : list B) :
  array_map f l = Ok ys -> length ys = length l.
Proof. intros H. apply array_map_Ok in H. symmetry. by eapply Forall2_length. Qed.

Lemma collect_length (today : string) (allJobs : list JobRecord)
    (combo : Combo) (jobs : list RawJob) :
  (length (collect today allJobs combo jobs) <= length allJobs + length jobs)%nat.
Proof.
  unfold collect.
  destruct (array_map (processJob today combo) jobs) as [processed|e] eqn:Hmap.
  - rewrite length_app, (array_map_length _ _ _ Hmap). lia.
  - lia.
Qed.

(** A property of every record the callback returns is a property of every
    record the loop collects. *)
Lemma fold_turn_Forall (Q : JobRecord -> Prop) (today : string)
    (turns : list (Combo * result (list RawJob))) (acc : list JobRecord) :
  Forall Q acc ->
  (forall t job rec, t ∈ turns -> processJob today t.1 job = Ok rec -> Q rec) ->
  Forall Q (fold_left (turn today) turns acc).
Proof.
  revert acc. induction turns as [|t turns IH]; intros acc Hacc HQ; simpl; [done|].
  apply IH; [|intros t' job rec Ht'; apply HQ; by right].
  unfold turn, collect. destruct (t.2) as [jobs|e]; [|done].
  destruct (array_map (processJob today t.1) jobs) as [processed|e] eqn:Hmap; [|done].
  apply Forall_app. split; [done|].
  apply array_map_Ok in Hmap. apply Forall_forall. intros rec Hrec.
  apply list_elem_of_lookup in Hrec as [i Hi].
  destruct (Forall2_lookup_r _ _ _ _ _ Hmap Hi) as (job & _ & Hjob).
  eapply HQ; [apply list_elem_of_here | exact Hjob].
Qed.

Lemma fold_turn_length (today : string)
    (turns : list (Combo * result (list RawJob))) (acc : list JobRecord) :
  (length (fold_left (turn today) turns acc) <= length acc + received turns)%nat.
Proof.
  revert acc. induction turns as [|t turns IH]; intros acc.
  - simpl. lia.
  - change (received (t :: turns))
      with (match t.2 with Ok jobs => length jobs | Throw _ => 0 end
            + received turns)%nat.
    simpl. etrans; [apply IH|]. unfold turn.
    destruct (t.2) as [jobs|e]; [|lia].
    pose proof (collect_length today acc t.1 jobs). lia.
Qed.

(** X6: whatever the queries return or raise, every record phase 1
    collects comes from LinkedIn with the category research and the
    relevance score 60, has one of the five job types, a non-empty title and
    company, tags without repetition that start with its search query, and
    a search query that is the keyword of one of the combinations; and no
    more records are collected than raw records were received. *)
Theorem phase1_records (today : string)
    (turns : list (Combo * result (list RawJob))) :
  Forall (fun rec =>
      source_site rec = "linkedin" /\ category rec = "research"
      /\ relevance_score rec = 60
      /\ job_type rec ∈ ["faculty"; "government"; "international"; "nonprofit"; "industry"]
      /\ nonempty_string (title rec) /\ nonempty_string (company rec)
      /\ NoDup (tags rec) /\ head (tags rec) = Some (search_query rec)
      /\ search_query rec ∈ (fun t => keyword t.1) <$> turns)
    (phase1 today turns)
  /\ (length (phase1 today turns) <= received turns)%nat.
Proof.
  split; [|apply (fold_turn_length today turns [])].
  apply fold_turn_Forall; [constructor|].
  intros t job rec Ht H.
  destruct (processJob_Ok_inv _ _ _ _ H) as (p & c & _ & _ & Hjt & Htags & Hcat & Hrel).
  destruct (processJob_Ok_fields _ _ _ _ H)
    as (Htitle & Hcompany & _ & _ & _ & _ & _ & _ & _ & _ & Hsite & Hquery).
  destruct (tags_shape (toLowerCase p) (keyword t.1)) as (rest & Hshape & _).
  split_and!; try done.
  - rewrite Hjt. apply classify_enumerated.
  - rewrite Htags. apply spread_set_NoDup.
  - by rewrite Htags, Hshape, Hquery.
  - rewrite Hquery. by apply (list_elem_of_fmap_2 (fun t => keyword t.1)).
Qed.

End ScraperLoop.

(** ** Further theorems: integrate_data.py *)

Section IntegrationStatistics.
Import IntegrateData Examples Props.

(** [set_solver] clears hypotheses by name and warns when one is gone. *)
#[local] Set Warnings "-clear-no-such-hyp".

(** *** Deduplication *)

Lemma fold_dedup_seen (l : list Job) (seen : gset string) (u : list Job) :
  (fold_left dedup_step l (seen, u)).1 = seen ∪ list_to_set (identifier <$> l).
Proof.
  revert seen u. induction l as [|job l IH]; intros seen u; simpl.
  - set_solver.
  - case_bool_decide as Hid; rewrite IH; set_solver.
Qed.

Lemma keep_first_identities (l : list Job) (seen : gset string) :
  list_to_set (identifier <$> Spec.keep_first seen l)
  =@{gset string} list_to_set (identifier <$> l) ∖ seen.
Proof.
  revert seen. induction l as [|job l IH]; intros seen; simpl.
  - set_solver.
  - case_bool_decide as Hid; simpl; rewrite IH.
    + apply set_eq. intros i.
      destruct (decide (i = identifier job)) as [->|Hne]; set_solver.
    + set_solver.
Qed.

Lemma sublist_same_length {A} (k l : list A) :
  k `sublist_of` l -> length k = length l -> k = l.
Proof.
  induction 1 as [|x k l Hs IH|x k l Hs IH]; simpl; intros Hlen; [done| |].
  - f_equal. apply IH. lia.
  - apply sublist_length in Hs. lia.
Qed.

Lemma unique_jobs_of_NoDup (l : list Job) :
  NoDup (identifier <$> unique_jobs_of l).
Proof. rewrite unique_jobs_of_keep_first. apply keep_first_NoDup. Qed.

Lemma unique_jobs_of_fixed (l : list Job) :
  NoDup (identifier <$> l) -> unique_jobs_of l = l.
Proof.
  intros Hnd. rewrite unique_jobs_of_keep_first. apply keep_first_fixed; [done|].
  apply Forall_forall. intros x _. apply not_elem_of_empty.
Qed.

(** X7: deduplication is idempotent, also behind the sort: run on its own
    output, or on its output once ranked, the loop drops nothing and keeps
    the order. *)
Theorem unique_jobs_of_stable_output (all_jobs : list Job) :
  unique_jobs_of (unique_jobs_of all_jobs) = unique_jobs_of all_jobs
  /\ unique_jobs_of (rank (unique_jobs_of all_jobs)) = rank (unique_jobs_of all_jobs).
Proof.
  split; apply unique_jobs_of_fixed.
  - apply unique_jobs_of_NoDup.
  - unfold rank. rewrite (sort_reverse_Permutation sort_key (unique_jobs_of all_jobs)).
    apply unique_jobs_of_NoDup.
Qed.

(** X8: deduplication loses no identity and invents no record: the set
    [seen] ends as the set of the identities of the input, the identities
    of the output are the same set, and every record of the output is a
    record of the input. *)
Theorem unique_jobs_of_identities (all_jobs : list Job) :
  (dedup_loop all_jobs).1 = list_to_set (identifier <$> all_jobs)
  /\ list_to_set (identifier <$> unique_jobs_of all_jobs)
     =@{gset string} list_to_set (identifier <$> all_jobs)
  /\ unique_jobs_of all_jobs ⊆ all_jobs.
Proof.
  split_and!.
  - unfold dedup_loop. rewrite fold_dedup_seen. set_solver.
  - rewrite unique_jobs_of_keep_first, keep_first_identities. set_solver.
  - rewrite unique_jobs_of_keep_first. apply sublist_subseteq, keep_first_sublist.
Qed.

(** X9: the number of records kept is the number of distinct identities
    among the staged records. *)
Theorem unique_jobs_of_count (all_jobs : list Job) :
  length (unique_jobs_of all_jobs)
  = size (list_to_set (identifier <$> all_jobs) : gset string).
Proof.
  rewrite <- (length_fmap identifier).
  rewrite <- (size_list_to_set (C:=gset string)) by apply unique_jobs_of_NoDup.
  by rewrite unique_jobs_of_keep_first, keep_first_identities, difference_empty_L.
Qed.

(** X10: the counter [duplicates_removed] of the published statistics is 0
    exactly when no two staged records, of the same source or of two, have
    the same identity. *)
Theorem duplicates_removed_zero_iff (now1 now2 : string)
    (academic_file rss_file linkedin_file : option SourceData) :
  duplicates_removed
    (stats (integrate now1 now2 academic_file rss_file linkedin_file)) = 0
  <-> NoDup (identifier <$>
              combine (load_json_safely academic_file)
                      (load_json_safely rss_file)
                      (load_json_safely linkedin_file)).
Proof.
  simpl.
  set (all_jobs := combine _ _ _).
  rewrite len_rank. unfold len. split.
  - intros Hlen.
    rewrite <- (sublist_same_length (unique_jobs_of all_jobs) all_jobs).
    + apply unique_jobs_of_NoDup.
    + rewrite unique_jobs_of_keep_first. apply keep_first_sublist.
    + lia.
  - intros Hnd. rewrite unique_jobs_of_fixed by done. lia.
Qed.

(** *** Statistics *)

Lemma incr_lookup (k t : string) (d : gmap string Z) :
  incr k d !! t = if decide (k = t) then Some (get (d !! t) 0 + 1) else d !! t.
Proof.
  unfold incr. rewrite lookup_insert. by destruct (decide (k = t)) as [->|].
Qed.

Lemma len_cons {A} (x : A) (l : list A) : len (x :: l) = 1 + len l.
Proof. unfold len. simpl. lia. Qed.

(** A tally after the counting loop, from any two starting tallies. *)
Lemma fold_count_step_lookup (jobs : list Job) (d1 d2 : gmap string Z) (k : string) :
  (fold_left count_step jobs (d1, d2)).1 !! k =
    match counted_under job_type k jobs with
    | [] => d1 !! k
    | l => Some (get (d1 !! k) 0 + len l)
    end
  /\ (fold_left count_step jobs (d1, d2)).2 !! k =
    match counted_under category k jobs with
    | [] => d2 !! k
    | l => Some (get (d2 !! k) 0 + len l)
    end.
Proof.
  unfold counted_under.
  revert d1 d2. induction jobs as [|j jobs IH]; intros d1 d2; [done|].
  cbn [fold_left]. unfold count_step at 2 4. cbn [fst snd].
  destruct (IH (incr (get (job_type j) "unknown") d1)
               (incr (get (category j) "unknown") d2)) as [IH1 IH2].
  rewrite IH1, IH2, !filter_cons, !incr_lookup. clear IH IH1 IH2.
  split.
  - destruct (decide (get (job_type j) "unknown" = k)) as [Heq|Hne].
    + destruct (filter _ jobs) as [|j' l]; simpl; [done|].
      rewrite !len_cons. f_equal. lia.
    + done.
  - destruct (decide (get (category j) "unknown" = k)) as [Heq|Hne].
    + destruct (filter _ jobs) as [|j' l]; simpl; [done|].
      rewrite !len_cons. f_equal. lia.
    + done.
Qed.

(** X11: in the published statistics, [by_job_type] and [by_category] have
    a key exactly for the values that occur among the published jobs, a
    missing value counting as "unknown", and the counter under a key is the
    number of published jobs with that value. *)
Theorem tallies_count (now1 now2 : string)
    (academic_file rss_file linkedin_file : option SourceData) (k : string) :
  let master_data := integrate now1 now2 academic_file rss_file linkedin_file in
  by_job_type (stats master_data) !! k =
    match counted_under job_type k (jobs master_data) with
    | [] => None
    | l => Some (len l)
    end
  /\ by_category (stats master_data) !! k =
    match counted_under category k (jobs master_data) with
    | [] => None
    | l => Some (len l)
    end.
Proof.
  simpl. set (unique_jobs := rank _).
  destruct (fold_count_step_lookup unique_jobs ∅ ∅ k) as [H1 H2].
  rewrite H1, H2, !lookup_empty. simpl.
  split; destruct (counted_under _ k unique_jobs); done.
Qed.

Lemma tally_sum_incr (k : string) (d : gmap string Z) :
  tally_sum (incr k d) = tally_sum d + 1.
Proof.
  unfold tally_sum, incr.
  assert (Hcomm : forall (m : gmap string Z) (j1 j2 : string) (z1 z2 y : Z),
             j1 <> j2 -> m !! j1 = Some z1 -> m !! j2 = Some z2 ->
             z1 + (z2 + y) = z2 + (z1 + y)) by (intros; lia).
  destruct (d !! k) as [n|] eqn:Hk; simpl.
  - rewrite <- insert_delete_eq.
    rewrite map_fold_insert_L; [|by apply Hcomm | by rewrite lookup_delete_eq].
    rewrite (map_fold_delete_L _ _ k n d); [lia | by apply Hcomm | done].
  - rewrite map_fold_insert_L; [lia | by apply Hcomm | done].
Qed.

Lemma fold_count_step_sum (jobs : list Job) (d1 d2 : gmap string Z) :
  tally_sum (fold_left count_step jobs (d1, d2)).1 = tally_sum d1 + len jobs
  /\ tally_sum (fold_left count_step jobs (d1, d2)).2 = tally_sum d2 + len jobs.
Proof.
  revert d1 d2. induction jobs as [|j jobs IH]; intros d1 d2.
  - unfold len. simpl. lia.
  - cbn [fold_left]. unfold count_step at 2 4. cbn [fst snd].
    destruct (IH (incr (get (job_type j) "unknown") d1)
                 (incr (get (category j) "unknown") d2)) as [IH1 IH2].
    rewrite IH1, IH2, !tally_sum_incr, len_cons. lia.
Qed.

(** X12: the counters of [by_job_type] add up to [total_jobs], and so do
    the counters of [by_category]: every published job is counted once in
    each tally. *)
Theorem tallies_add_up (now1 now2 : string)
    (academic_file rss_file linkedin_file : option SourceData) :
  let s := stats (integrate now1 now2 academic_file rss_file linkedin_file) in
  tally_sum (by_job_type s) = total_jobs s
  /\ tally_sum (by_category s) = total_jobs s.
Proof.
  simpl. set (unique_jobs := rank _).
  destruct (fold_count_step_sum unique_jobs ∅ ∅) as [H1 H2].
  rewrite H1, H2. unfold tally_sum. rewrite map_fold_empty. lia.
Qed.

Lemma len_filter_bounds {A} (P : A -> Prop) `{!forall x, Decision (P x)} (l : list A) :
  0 <= len (filter P l) <= len l.
Proof. unfold len. pose proof (length_filter P l). lia. Qed.

(** X13: the counters of the published statistics are consistent:
    [high_relevance], [gemini_analyzed] and [remote_jobs] lie between 0 and
    [total_jobs], [total_jobs] is at most the sum of the per-source counts,
    and the metadata repeat [total_jobs], which is the length of the
    published list. *)
Theorem stats_bounds (now1 now2 : string)
    (academic_file rss_file linkedin_file : option SourceData) :
  let master_data := integrate now1 now2 academic_file rss_file linkedin_file in
  let s := stats master_data in
  0 <= high_relevance s <= total_jobs s
  /\ 0 <= gemini_analyzed_jobs s <= total_jobs s
  /\ 0 <= remote_jobs s <= total_jobs s
  /\ 0 <= total_jobs s <= academic_jobs s + rss_jobs s + linkedin_jobs s
  /\ total_unique_jobs (metadata master_data) = total_jobs s
  /\ total_jobs s = len (jobs master_data).
Proof.
  simpl. split_and!; try apply len_filter_bounds; try done.
  - unfold len. lia.
  - rewrite len_rank. etrans; [apply len_unique_jobs_of|].
    unfold combine. rewrite !len_app. unfold len at 1. simpl. lia.
Qed.

(** *** The ranked list *)

(** In a list sorted by non-increasing key, the elements whose key is at
    least [c] are a prefix. *)
Lemma sorted_filter_prefix {A} (key : A -> Z) (c : Z) (l : list A) :
  StronglySorted (fun a b => key b <= key a) l ->
  filter (fun j => key j >= c) l
  = take (length (filter (fun j => key j >= c) l)) l.
Proof.
  induction 1 as [|x l Hs IH Hall]; [done|].
  rewrite filter_cons. destruct (decide (key x >= c)) as [Hx|Hx].
  - simpl. by rewrite <- IH.
  - assert (Hnil : filter (fun j => key j >= c) l = []).
    { clear IH Hs. induction Hall as [|y l Hy Hall IH]; [done|].
      rewrite filter_cons_False by lia. done. }
    by rewrite Hnil.
Qed.

(** X14: the published list starts with the jobs counted as high
    relevance: its first [high_relevance] records are exactly its records
    with a relevance score of 80 or more, in the same order. *)
Theorem high_relevance_prefix (now1 now2 : string)
    (academic_file rss_file linkedin_file : option SourceData) :
  let master_data := integrate now1 now2 academic_file rss_file linkedin_file in
  take (Z.to_nat (high_relevance (stats master_data))) (jobs master_data)
  = filter (fun j => get (relevance_score j) 0 >= 80) (jobs master_data).
Proof.
  simpl. unfold len. rewrite Nat2Z.id.
  symmetry. apply (sorted_filter_prefix sort_key 80).
  apply sort_reverse_sorted.
Qed.

Lemma sort_reverse_fixed {A} (key : A -> Z) (l : list A) :
  StronglySorted (fun a b => key b <= key a) l -> sort_reverse key l = l.
Proof.
  unfold sort_reverse. induction 1 as [|x l Hs IH Hall]; [done|].
  cbn [foldr]. rewrite IH. destruct Hall as [|y l Hy Hall]; [done|].
  simpl. destruct (Z.ltb_spec (key x) (key y)); [lia | done].
Qed.

(** X15: ranking is idempotent, and a list that is already non-increasing
    in the sort key is returned as it is. *)
Theorem rank_fixed (l : list Job) :
  rank (rank l) = rank l
  /\ (StronglySorted (fun x y => sort_key y <= sort_key x) l -> rank l = l).
Proof.
  unfold rank. split.
  - apply sort_reverse_fixed, sort_reverse_sorted.
  - apply sort_reverse_fixed.
Qed.

Lemma rank_fixed_witness : rank [job90a; job90b; job60] = [job90a; job90b; job60].
Proof.
  apply (proj2 (rank_fixed [job90a; job90b; job60])).
  repeat constructor; by vm_compute.
Defined.

(** X16: the published list holds every identity of the staged records
    exactly once, holds only staged records, and is non-increasing in the
    sort key; it is the deduplicated list in another order. *)
Theorem published_jobs (now1 now2 : string)
    (academic_file rss_file linkedin_file : option SourceData) :
  let master_data := integrate now1 now2 academic_file rss_file linkedin_file in
  let all_jobs := combine (load_json_safely academic_file)
                          (load_json_safely rss_file)
                          (load_json_safely linkedin_file) in
  NoDup (identifier <$> jobs master_data)
  /\ list_to_set (identifier <$> jobs master_data)
     =@{gset string} list_to_set (identifier <$> all_jobs)
  /\ jobs master_data ⊆ all_jobs
  /\ jobs master_data ≡ₚ unique_jobs_of all_jobs
  /\ StronglySorted (fun x y => sort_key y <= sort_key x) (jobs master_data).
Proof.
  simpl. set (all_jobs := combine _ _ _).
  assert (Hperm : rank (unique_jobs_of all_jobs) ≡ₚ unique_jobs_of all_jobs)
    by apply sort_reverse_Permutation.
  split_and!.
  - rewrite Hperm. apply unique_jobs_of_NoDup.
  - apply set_eq. intros i. rewrite !elem_of_list_to_set, Hperm.
    rewrite <- !(elem_of_list_to_set (C:=gset string)).
    by rewrite unique_jobs_of_keep_first, keep_first_identities, difference_empty_L.
  - intros j. rewrite Hperm, unique_jobs_of_keep_first.
    apply sublist_subseteq, keep_first_sublist.
  - done.
  - apply sort_reverse_sorted.
Qed.

(** X17: a staging file that is missing or unreadable, one without the key
    jobs and one with an empty array all count as no jobs; and when no
    source has jobs the dataset is empty, with every counter 0 and both
    tallies empty, rather than an error. *)
Theorem integrate_no_jobs (now1 now2 : string)
    (academic_file rss_file linkedin_file : option SourceData) :
  (forall file, file = None \/ file = Some {| jobs_key := None |}
                \/ file = Some {| jobs_key := Some [] |} ->
     jobs_of (load_json_safely file) = [])
  /\ (jobs_of (load_json_safely academic_file) = [] ->
      jobs_of (load_json_safely rss_file) = [] ->
      jobs_of (load_json_safely linkedin_file) = [] ->
      let master_data := integrate now1 now2 academic_file rss_file linkedin_file in
      let s := stats master_data in
      jobs master_data = []
      /\ total_jobs s = 0 /\ duplicates_removed s = 0 /\ high_relevance s = 0
      /\ gemini_analyzed_jobs s = 0 /\ remote_jobs s = 0
      /\ academic_jobs s = 0 /\ rss_jobs s = 0 /\ linkedin_jobs s = 0
      /\ by_job_type s = ∅ /\ by_category s = ∅).
Proof.
  split.
  - by intros file [->|[->| ->]].
  - intros Ha Hr Hl. simpl. unfold combine. rewrite Ha, Hr, Hl. simpl.
    split_and!; reflexivity.
Qed.

Lemma integrate_no_jobs_witness :
  jobs (integrate "t1" "t2" None (Some {| jobs_key := None |})
          (Some {| jobs_key := Some [] |})) = [].
Proof.
  destruct (integrate_no_jobs "t1" "t2" None (Some {| jobs_key := None |})
              (Some {| jobs_key := Some [] |})) as [Hfile Hempty].
  apply Hempty; apply Hfile; auto.
Defined.

(** *** Saving the master file *)

(** X18: a complete save replaces the artifact and does nothing else: the
    file system after it is the one before with the whole new text at the
    published path, whatever the path held; so a second save leaves nothing
    of the first, and saving the same data twice is the same as saving it
    once. *)
Theorem save_master_file_replaces (chunks chunks' : list string)
    (fs : gmap string string) :
  run (save_master_file chunks) fs = <[master_file := Spec.text chunks]> fs
  /\ run (save_master_file chunks') (run (save_master_file chunks) fs)
     = run (save_master_file chunks') fs
  /\ run (save_master_file chunks) (run (save_master_file chunks) fs)
     = run (save_master_file chunks) fs.
Proof.
  rewrite !run_save_master_file. split_and!; [done | |]; by rewrite insert_insert_eq.
Qed.

End IntegrationStatistics.

(** ** Further theorems: index.html *)

Section DashboardScript.
Import JS IntegrateData Dashboard Examples Props.

(** [set_solver] clears hypotheses by name and warns when one is gone. *)
#[local] Set Warnings "-clear-no-such-hyp".

(** *** removeDuplicateJobs *)

Lemma key_identifier (job : Posting) :
  is_Some (title (record job)) -> is_Some (company (record job)) ->
  key job = identifier (record job).
Proof.
  intros [t Ht] [c Hc]. unfold key, identifier. rewrite Ht, Hc.
  destruct (source_url (record job)) as [u|]; simpl; [|done].
  unfold str_truthy. by destruct (String.eqb u "").
Qed.

Lemma fold_dedup_callback (jobs : list Posting) (seen : gset string)
    (kept : list Posting) :
  Forall (fun job => is_Some (title (record job)) /\ is_Some (company (record job)))
         jobs ->
  record <$> (fold_left dedup_callback jobs (seen, kept)).2
  = (fold_left dedup_step (record <$> jobs) (seen, record <$> kept)).2.
Proof.
  revert seen kept. induction jobs as [|job jobs IH]; intros seen kept Hall; [done|].
  apply Forall_cons in Hall as [[Ht Hc] Hall].
  rewrite fmap_cons. cbn [fold_left].
  unfold dedup_callback at 2, dedup_step at 2. cbn [fst snd].
  rewrite (key_identifier job Ht Hc).
  destruct (decide (identifier (record job) ∈ seen)) as [Hin|Hin].
  - rewrite bool_decide_eq_true_2, bool_decide_eq_false_2 by tauto.
    by apply IH.
  - rewrite bool_decide_eq_false_2, bool_decide_eq_true_2 by tauto.
    rewrite IH by done. by rewrite fmap_app.
Qed.

(** X19: on jobs that all have a title and a company, the page's own
    deduplication keeps the same records, in the same order, as the
    deduplication of the integration script. *)
Theorem removeDuplicateJobs_agrees (jobs : list Posting) :
  Forall (fun job => is_Some (title (record job)) /\ is_Some (company (record job)))
         jobs ->
  record <$> removeDuplicateJobs jobs = unique_jobs_of (record <$> jobs).
Proof. intros Hall. by apply (fold_dedup_callback jobs ∅ []). Qed.

Lemma removeDuplicateJobs_agrees_witness :
  record <$> removeDuplicateJobs
               [posting academic_fellow "Cambridge, MA" "Fellowship";
                posting linkedin_fellow "Remote" "LinkedIn: Fellowship"]
  = unique_jobs_of [academic_fellow; linkedin_fellow].
Proof.
  apply (removeDuplicateJobs_agrees
           [posting academic_fellow "Cambridge, MA" "Fellowship";
            posting linkedin_fellow "Remote" "LinkedIn: Fellowship"]).
  repeat constructor; by eexists.
Defined.

(** *** applyFilters *)

Lemma array_filter_Ok {A} (f : A -> result bool) (P : A -> Prop)
    `{!forall x, Decision (P x)} (l : list A) :
  Forall (fun x => exists b : bool, f x = Ok b /\ (b = true <-> P x)) l ->
  array_filter f l = Ok (filter P l).
Proof.
  induction 1 as [|x l (b & Hx & Hb) Hall IH]; [done|].
  simpl. rewrite Hx, IH. simpl. rewrite filter_cons.
  destruct (decide (P x)) as [HP|HP], b; try done; exfalso; intuition congruence.
Qed.

Lemma array_filter_Throw {A} (f : A -> result bool) (l : list A) :
  Exists (fun x => f x = Throw TypeError) l -> array_filter f l = Throw TypeError.
Proof.
  induction 1 as [x l Hx|x l Hex IH]; simpl.
  - by rewrite Hx.
  - rewrite IH. by destruct (f x) as [b|[]].
Qed.

(** The callback on a job that has the text properties it reads, for any
    lower-casing. *)
Lemma matches_with_visible (lower : string -> string)
    (jobType category location keyword : string) (job : Posting) :
  (location = "" \/ is_Some (Dashboard.location job)) ->
  (keyword = "" \/ (is_Some (title (record job)) /\ is_Some (description job)
                    /\ is_Some (company (record job)))) ->
  exists b : bool,
    matches_with lower jobType category location keyword job = Ok b
    /\ (b = true <-> visible_with lower jobType category location keyword job).
Proof.
  intros Hloc Hkw. unfold matches_with.
  destruct (String.eqb_spec jobType "all") as [Hjt|Hjt];
    destruct (bool_decide_reflect (job_type (record job) = Some jobType))
      as [Hjt'|Hjt'];
    cbn [orb negb];
    destruct (String.eqb_spec category "all") as [Hc|Hc];
    destruct (bool_decide_reflect (IntegrateData.category (record job) = Some category))
      as [Hc'|Hc'];
    cbn [orb negb];
    destruct (String.eqb_spec location "") as [Hl|Hl];
    try (destruct Hloc as [?|[l Hl']]; [done|]; rewrite Hl'; simpl;
         destruct (includes (lower l) location) eqn:Hinc; simpl);
    destruct (String.eqb_spec keyword "") as [Hk|Hk];
    try (destruct Hkw as [?|([t Ht] & [d Hd] & [c Hc''])]; [done|];
         rewrite Ht, Hd, Hc''; simpl;
         destruct (includes (lower t) keyword) eqn:Ht'; simpl;
         [|destruct (includes (lower d) keyword) eqn:Hd'; simpl;
           [|destruct (includes (lower c) keyword) eqn:Hc3; simpl]]);
    (eexists; split; [reflexivity|]);
    unfold visible_with, field_includes_with;
    rewrite ?Hl', ?Ht, ?Hd, ?Hc'';
    intuition congruence.
Qed.

(** The callback of the page on ASCII text. *)
Lemma matches_visible (jobType category location keyword : string) (job : Posting) :
  (location = "" \/ is_Some (Dashboard.location job)) ->
  (keyword = "" \/ (is_Some (title (record job)) /\ is_Some (description job)
                    /\ is_Some (company (record job)))) ->
  exists b : bool,
    matches jobType category location keyword job = Ok b
    /\ (b = true <-> visible jobType category location keyword job).
Proof. exact (matches_with_visible toLowerCase jobType category location keyword job). Qed.

(** X20: when every job has a location, a title, a description and a
    company, filtering never raises, whatever the four controls hold and
    whatever lower-casing [toLowerCase] performs: the jobs kept are exactly
    the jobs that satisfy the four conditions of the controls, with the
    texts typed and the properties of the job lower-cased the same way, in
    the order of [allJobs]. *)
Theorem filterJobs_visible (lower : string -> string)
    (jobType category location_input keyword_input : string)
    (allJobs : list Posting) :
  Forall has_text_keys allJobs ->
  filterJobs_with lower jobType category location_input keyword_input allJobs
  = Ok (filter (visible_with lower jobType category (lower location_input)
                             (lower keyword_input)) allJobs).
Proof.
  intros Hall. unfold filterJobs_with. apply array_filter_Ok.
  eapply Forall_impl; [exact Hall|].
  intros job (Hl & Ht & Hd & Hc). apply matches_with_visible; auto.
Qed.

Lemma filterJobs_visible_witness :
  filterJobs_with toLowerCase "all" "all" "REMOTE" ""
    [posting academic_fellow "Cambridge, MA" "Fellowship";
     posting linkedin_fellow "Remote" "LinkedIn: Fellowship"]
  = Ok [posting linkedin_fellow "Remote" "LinkedIn: Fellowship"].
Proof.
  rewrite (filterJobs_visible toLowerCase "all" "all" "REMOTE" ""
             [posting academic_fellow "Cambridge, MA" "Fellowship";
              posting linkedin_fellow "Remote" "LinkedIn: Fellowship"]).
  - reflexivity.
  - repeat constructor; by eexists.
Defined.

(** X21: with the location and the keyword controls left empty, filtering
    never raises even on jobs that lack every text property: the jobs kept
    are those of the selected job type and category, and all jobs when both
    selections are "all". *)
Theorem filterJobs_by_type (jobType category : string) (allJobs : list Posting) :
  filterJobs jobType category "" "" allJobs
  = Ok (filter (fun job =>
                  (jobType = "all" \/ job_type (record job) = Some jobType)
                  /\ (category = "all"
                      \/ IntegrateData.category (record job) = Some category))
               allJobs)
  /\ filterJobs "all" "all" "" "" allJobs = Ok allJobs.
Proof.
  assert (Hgen : forall jt cat,
    filterJobs jt cat "" "" allJobs
    = Ok (filter (fun job =>
                    (jt = "all" \/ job_type (record job) = Some jt)
                    /\ (cat = "all" \/ IntegrateData.category (record job) = Some cat))
                 allJobs)).
  { intros jt cat. unfold filterJobs. apply array_filter_Ok.
    apply Forall_forall. intros job _.
    destruct (matches_visible jt cat "" "" job) as (b & Hb & Hvis); [by left..|].
    exists b. split; [done|]. rewrite Hvis. unfold visible. tauto. }
  split; [apply Hgen|].
  rewrite Hgen. f_equal. clear Hgen. induction allJobs as [|job l IH]; [done|].
  rewrite filter_cons_True by (split; by left). by rewrite IH.
Qed.

(** X22: a location typed into the filter makes filtering raise a
    TypeError as soon as one job of the selected job type and category has
    no location; a keyword does the same for a job without title. *)
Theorem filterJobs_throws (jobType category location_input keyword_input : string)
    (allJobs : list Posting) (job : Posting) :
  job ∈ allJobs ->
  (jobType = "all" \/ job_type (record job) = Some jobType) ->
  (category = "all" \/ IntegrateData.category (record job) = Some category) ->
  (toLowerCase location_input <> "" /\ Dashboard.location job = None)
  \/ (toLowerCase location_input = "" /\ toLowerCase keyword_input <> ""
      /\ title (record job) = None) ->
  filterJobs jobType category location_input keyword_input allJobs = Throw TypeError.
Proof.
  intros Hin Hjt Hcat Hmissing. unfold filterJobs.
  apply array_filter_Throw, Exists_exists. exists job. split; [done|].
  unfold matches.
  assert (Ht : String.eqb jobType "all"
               || bool_decide (job_type (record job) = Some jobType) = true).
  { destruct Hjt as [->|Hjt]; [done|].
    rewrite (bool_decide_eq_true_2 _ Hjt). apply orb_true_r. }
  assert (Hc : String.eqb category "all"
               || bool_decide (IntegrateData.category (record job) = Some category)
               = true).
  { destruct Hcat as [->|Hcat]; [done|].
    rewrite (bool_decide_eq_true_2 _ Hcat). apply orb_true_r. }
  rewrite Ht, Hc. cbn [negb].
  destruct Hmissing as [[Hl Hnone]|(Hl & Hk & Hnone)].
  - destruct (String.eqb_spec (toLowerCase location_input) ""); [done|].
    by rewrite Hnone.
  - rewrite Hl. simpl.
    destruct (String.eqb_spec (toLowerCase keyword_input) ""); [done|].
    by rewrite Hnone.
Qed.

Lemma filterJobs_throws_witness :
  filterJobs "all" "all" "remote" ""
    [posting academic_fellow "Cambridge, MA" "Fellowship";
     {| record := unscored; Dashboard.location := None; description := None;
        posting_date := None; basic_relevance_score := None |}]
  = Throw TypeError.
Proof.
  apply (filterJobs_throws "all" "all" "remote" "" _
           {| record := unscored; Dashboard.location := None; description := None;
              posting_date := None; basic_relevance_score := None |}).
  - apply list_elem_of_further, list_elem_of_here.
  - by left.
  - by left.
  - left. split; [discriminate | reflexivity].
Defined.

(** *** Sorting by relevance *)

Lemma insert_by_insert_desc {A} (key : A -> Z) (x : A) (l : list A) :
  insert_by (fun a b => key b - key a) x l = insert_desc key x l.
Proof.
  induction l as [|y l IH]; simpl; [done|]. rewrite IH.
  destruct (Z.ltb_spec 0 (key y - key x)), (Z.ltb_spec (key x) (key y));
    try done; lia.
Qed.

Lemma array_sort_sort_reverse {A} (key : A -> Z) (l : list A) :
  array_sort (fun a b => key b - key a) l = sort_reverse key l.
Proof.
  unfold array_sort, sort_reverse. induction l as [|x l IH]; simpl; [done|].
  by rewrite IH, insert_by_insert_desc.
Qed.

Lemma insert_desc_fmap_keys {A B} (f : A -> B) (key : A -> Z) (key' : B -> Z)
    (x : A) (l : list A) :
  key' (f x) = key x -> Forall (fun a => key' (f a) = key a) l ->
  insert_desc key' (f x) (f <$> l) = f <$> insert_desc key x l.
Proof.
  intros Hx. induction 1 as [|y l Hy Hall IH]; [done|].
  rewrite fmap_cons. cbn [insert_desc]. rewrite Hx, Hy.
  destruct (key x <? key y); [by rewrite fmap_cons, IH | done].
Qed.

Lemma sort_reverse_fmap_keys {A B} (f : A -> B) (key : A -> Z) (key' : B -> Z)
    (l : list A) :
  Forall (fun a => key' (f a) = key a) l ->
  sort_reverse key' (f <$> l) = f <$> sort_reverse key l.
Proof.
  unfold sort_reverse. induction 1 as [|x l Hx Hall IH]; [done|].
  rewrite fmap_cons. cbn [foldr]. rewrite IH.
  apply insert_desc_fmap_keys; [done|].
  change (foldr (insert_desc key) [] l) with (sort_reverse key l).
  by rewrite (sort_reverse_Permutation key l).
Qed.

(** X23: on jobs that all have a relevance score other than 0, sorting by
    relevance on the page orders the jobs as the integration script ranks
    them; so the page leaves a published list of such jobs in the published
    order. *)
Theorem sort_by_relevance_agrees (postings : list Posting) :
  Forall (fun p => exists s, relevance_score (record p) = Some s /\ s <> 0) postings ->
  record <$> sort_by_relevance postings = rank (record <$> postings)
  /\ (rank (record <$> postings) = record <$> postings ->
      sort_by_relevance postings = postings).
Proof.
  intros Hall.
  assert (Hkeys : Forall (fun p => sort_key (record p) = shown_score p) postings).
  { eapply Forall_impl; [exact Hall|]. intros p (s & Hs & Hne).
    unfold sort_key, shown_score. rewrite Hs. simpl.
    by destruct (Z.eqb_spec s 0). }
  unfold sort_by_relevance, rank. rewrite array_sort_sort_reverse.
  split; [symmetry; by apply sort_reverse_fmap_keys|].
  intros Hranked. apply sort_reverse_fixed.
  assert (Hs : StronglySorted (fun x y => sort_key y <= sort_key x)
                              (record <$> postings)).
  { rewrite <- Hranked. apply sort_reverse_sorted. }
  clear Hranked Hall. induction postings as [|p l IH]; [constructor|].
  rewrite fmap_cons in Hs. apply StronglySorted_inv in Hs as [Hs Hall].
  apply Forall_cons in Hkeys as [Hp Hk].
  constructor; [by apply IH|].
  rewrite Forall_fmap, Forall_forall in Hall. rewrite Forall_forall in Hk.
  apply Forall_forall. intros q Hq. specialize (Hall q Hq). specialize (Hk q Hq).
  simpl in Hall. lia.
Qed.

Lemma sort_by_relevance_agrees_witness :
  record <$> sort_by_relevance
               [posting job40 "Berlin" "Analyst"; posting job90a "London" "Lead"]
  = rank [job40; job90a].
Proof.
  refine (proj1 (sort_by_relevance_agrees
                   [posting job40 "Berlin" "Analyst"; posting job90a "London" "Lead"]
                   _)).
  apply Forall_cons_2; [by exists 40|].
  apply Forall_cons_2; [by exists 90|]. apply Forall_nil_2.
Defined.

(** *** calculateCombinedStats *)

(** Under a key that a plain object does not inherit, a tally of numbers
    is counted up as the integration script counts. *)
Lemma bump_incr (function_text : string -> string) (k : string) (d : gmap string Z) :
  plain_key k -> bump function_text k (Num <$> d) = Num <$> incr k d.
Proof.
  intros [Hproto Hmethod]. unfold bump, next, incr.
  destruct (String.eqb_spec k "__proto__") as [?|_]; [done|].
  rewrite fmap_insert, lookup_fmap. f_equal.
  destruct (d !! k) as [n|]; simpl.
  - by destruct (Z.eqb_spec n 0) as [->|?].
  - by rewrite bool_decide_eq_false_2.
Qed.

(** Under a key that a plain object inherits the tally does not count:
    the first job under [constructor] stores a text, and a job under
    [__proto__] stores nothing. *)
Lemma bump_inherited (function_text : string -> string) (d : gmap string cell) :
  bump function_text "constructor" ∅
  = {[ "constructor" := Str (function_text "constructor" +:+ "1") ]}
  /\ bump function_text "__proto__" d = d.
Proof.
  split; [|done]. unfold bump, next. rewrite lookup_empty.
  change (String.eqb "constructor" "__proto__") with false. cbn iota.
  rewrite bool_decide_eq_true_2 by apply list_elem_of_here.
  by rewrite insert_empty.
Qed.

(** The state of the [forEach] loop, from any starting state: the total
    and the jobs posted today, whatever the keys. *)
Lemma fold_stats_callback (function_text : string -> string) (today : string)
    (jobs : list Posting) (st : CombinedStats) :
  let s := fold_left (stats_callback function_text today) jobs st in
  total s = total st
  /\ new_today s
     = new_today st
       + Z.of_nat (length (filter (fun p => posting_date p = Some today) jobs)).
Proof.
  revert st. induction jobs as [|job jobs IH]; intros st.
  - simpl. lia.
  - cbn [fold_left].
    destruct (IH (stats_callback function_text today st job)) as (H1 & H2).
    cbn zeta. rewrite H1, H2. clear IH H1 H2.
    unfold stats_callback. cbn [total new_today]. rewrite filter_cons.
    destruct (decide (posting_date job = Some today)) as [Hd|Hd].
    + rewrite (bool_decide_eq_true_2 _ Hd). simpl length. lia.
    + rewrite (bool_decide_eq_false_2 _ Hd). simpl length. lia.
Qed.

(** The two tallies of the loop, from tallies of numbers, on jobs counted
    under keys that a plain object does not inherit. *)
Lemma fold_stats_callback_tallies (function_text : string -> string) (today : string)
    (jobs : list Posting) (st : CombinedStats) (d1 d2 : gmap string Z) :
  Forall plain_keys jobs ->
  Dashboard.by_job_type st = Num <$> d1 ->
  Dashboard.by_category st = Num <$> d2 ->
  let s := fold_left (stats_callback function_text today) jobs st in
  let t := fold_left (fun t p =>
                        (incr (tally_key (job_type (record p))) t.1,
                         incr (tally_key (IntegrateData.category (record p))) t.2))
                     jobs (d1, d2) in
  Dashboard.by_job_type s = Num <$> t.1 /\ Dashboard.by_category s = Num <$> t.2.
Proof.
  revert st d1 d2. induction jobs as [|job jobs IH]; intros st d1 d2 Hall H1 H2;
    [done|].
  apply Forall_cons in Hall as [[Hjt Hcat] Hall]. cbn [fold_left].
  apply IH; [done|..]; unfold stats_callback;
    cbn [Dashboard.by_job_type Dashboard.by_category fst snd].
  - rewrite H1. by apply bump_incr.
  - rewrite H2. by apply bump_incr.
Qed.

Lemma fold_incr_tally_sum (jobs : list Posting) (d1 d2 : gmap string Z) :
  let t := fold_left (fun t p =>
                        (incr (tally_key (job_type (record p))) t.1,
                         incr (tally_key (IntegrateData.category (record p))) t.2))
                     jobs (d1, d2) in
  tally_sum t.1 = tally_sum d1 + Z.of_nat (length jobs)
  /\ tally_sum t.2 = tally_sum d2 + Z.of_nat (length jobs).
Proof.
  revert d1 d2. induction jobs as [|job jobs IH]; intros d1 d2.
  - simpl. lia.
  - cbn [fold_left]. cbn zeta.
    destruct (IH (incr (tally_key (job_type (record job))) d1)
                 (incr (tally_key (IntegrateData.category (record job))) d2))
      as [IH1 IH2].
    cbn zeta in IH1, IH2. cbn [fst snd] in *.
    rewrite IH1, IH2, !tally_sum_incr. simpl length. lia.
Qed.

(** On jobs that have a job type and a category which are not the empty
    string, the page counts under the keys of the integration script. *)
Lemma fold_incr_count_step (jobs : list Posting) (d1 d2 : gmap string Z) :
  Forall (fun p => job_type (record p) <> Some ""
                   /\ IntegrateData.category (record p) <> Some "") jobs ->
  fold_left (fun t p =>
               (incr (tally_key (job_type (record p))) t.1,
                incr (tally_key (IntegrateData.category (record p))) t.2))
            jobs (d1, d2)
  = fold_left count_step (record <$> jobs) (d1, d2).
Proof.
  assert (Hkey : forall f : option string, f <> Some "" ->
            tally_key f = get f "unknown").
  { intros [x|] Hf; [|done]. unfold tally_key, or. simpl.
    destruct (String.eqb_spec x ""); [by subst|done]. }
  revert d1 d2. induction jobs as [|job jobs IH]; intros d1 d2 Hall; [done|].
  apply Forall_cons in Hall as [[Hjt Hcat] Hall].
  rewrite fmap_cons. cbn [fold_left]. rewrite IH by done.
  unfold count_step. cbn [fst snd]. by rewrite !Hkey.
Qed.

(** X24: the statistics the page computes itself: [total] is the number of
    jobs, and [new_today] is the number of jobs posted on the day given, so
    it lies between 0 and [total]; and when no job is counted under a key
    that a plain object inherits ([constructor], [toString], [__proto__]
    and the like), each of the two tallies holds numbers only, which add
    up to [total]. *)
Theorem calculateCombinedStats_consistent (function_text : string -> string)
    (today : string) (jobs : list Posting) :
  let s := calculateCombinedStats function_text today jobs in
  total s = Z.of_nat (length jobs)
  /\ new_today s
     = Z.of_nat (length (filter (fun p => posting_date p = Some today) jobs))
  /\ 0 <= new_today s <= total s
  /\ (Forall plain_keys jobs ->
      (exists d, Dashboard.by_job_type s = Num <$> d /\ tally_sum d = total s)
      /\ (exists d, Dashboard.by_category s = Num <$> d /\ tally_sum d = total s)).
Proof.
  unfold calculateCombinedStats. cbn zeta.
  set (st := {| total := Z.of_nat (length jobs); Dashboard.by_job_type := ∅;
                Dashboard.by_category := ∅; new_today := 0 |}).
  destruct (fold_stats_callback function_text today jobs st) as (H1 & H2).
  cbn zeta in H1, H2. rewrite H1, H2. simpl.
  pose proof (length_filter (fun p => posting_date p = Some today) jobs).
  split_and!; try lia.
  intros Hall.
  destruct (fold_stats_callback_tallies function_text today jobs st ∅ ∅ Hall)
    as [Ht Hc]; [by rewrite fmap_empty..|].
  destruct (fold_incr_tally_sum jobs ∅ ∅) as [St Sc].
  cbn zeta in Ht, Hc, St, Sc.
  unfold tally_sum in St at 2, Sc at 2. rewrite map_fold_empty in St, Sc.
  split; eexists; (split; [eassumption|lia]).
Qed.

(** X25: on jobs none of which has the empty string as job type or as
    category, and none of which is counted under a key that a plain object
    inherits, the two tallies the page computes are the tallies the
    integration script publishes for the same jobs. *)
Theorem calculateCombinedStats_agrees (function_text : string -> string)
    (today : string) (jobs : list Posting)
    (academic_data rss_data linkedin_data : SourceData) (all_jobs : list Job) :
  Forall (fun p => job_type (record p) <> Some ""
                   /\ IntegrateData.category (record p) <> Some "") jobs ->
  Forall plain_keys jobs ->
  let s := calculateCombinedStats function_text today jobs in
  let s' := compute_stats academic_data rss_data linkedin_data all_jobs
                          (record <$> jobs) in
  Dashboard.by_job_type s = Num <$> IntegrateData.by_job_type s'
  /\ Dashboard.by_category s = Num <$> IntegrateData.by_category s'
  /\ total s = total_jobs s'.
Proof.
  intros Hne Hall. unfold calculateCombinedStats. cbn zeta.
  set (st := {| total := Z.of_nat (length jobs); Dashboard.by_job_type := ∅;
                Dashboard.by_category := ∅; new_today := 0 |}).
  destruct (fold_stats_callback_tallies function_text today jobs st ∅ ∅ Hall)
    as [Ht Hc]; [by rewrite fmap_empty..|].
  destruct (fold_stats_callback function_text today jobs st) as (H1 & _).
  cbn zeta in Ht, Hc, H1. rewrite Ht, Hc, H1, fold_incr_count_step by done.
  simpl. split_and!; try done. unfold len. by rewrite length_fmap.
Qed.

Lemma calculateCombinedStats_agrees_witness :
  Dashboard.by_job_type
    (calculateCombinedStats (fun _ => "function () { [native code] }") "2025-01-01"
       [posting job40 "Berlin" "Analyst"])
  = Num <$> IntegrateData.by_job_type
      (compute_stats {| jobs_key := None |} {| jobs_key := None |}
                     {| jobs_key := None |} [] [job40]).
Proof.
  apply (calculateCombinedStats_agrees (fun _ => "function () { [native code] }")
           "2025-01-01" [posting job40 "Berlin" "Analyst"]
           {| jobs_key := None |} {| jobs_key := None |} {| jobs_key := None |} []).
  - repeat constructor; discriminate.
  - apply Forall_cons_2; [|apply Forall_nil_2].
    split; (split; [by vm_compute | apply (bool_decide_unpack _); by vm_compute]).
Defined.

(** *** removeDuplicateJobs and loadJobs *)

Lemma fold_dedup_callback_inv (jobs : list Posting) (seen : gset string)
    (kept : list Posting) :
  seen = list_to_set (key <$> kept) -> NoDup (key <$> kept) ->
  let r := fold_left dedup_callback jobs (seen, kept) in
  r.1 = list_to_set (key <$> r.2) /\ NoDup (key <$> r.2)
  /\ r.1 = seen ∪ list_to_set (key <$> jobs)
  /\ exists added, r.2 = kept ++ added /\ (added `sublist_of` jobs).
Proof.
  revert seen kept. induction jobs as [|job jobs IH]; intros seen kept Hseen Hnd.
  - simpl. split_and!; [done | done | set_solver |].
    exists []. split; [by rewrite app_nil_r | constructor].
  - cbn [fold_left]. unfold dedup_callback at 2 4 6 8 10. cbn [fst snd].
    destruct (decide (key job ∈ seen)) as [Hin|Hin].
    + rewrite (bool_decide_eq_true_2 _ Hin).
      destruct (IH seen kept Hseen Hnd) as (H1 & H2 & H3 & added & H4 & H5).
      split_and!; [done | done | rewrite H3; set_solver |].
      exists added. split; [done | by constructor].
    + rewrite (bool_decide_eq_false_2 _ Hin).
      destruct (IH ({[key job]} ∪ seen) (kept ++ [job])) as (H1 & H2 & H3 & added & H4 & H5).
      * rewrite fmap_app, list_to_set_app_L. set_solver.
      * rewrite fmap_app. apply NoDup_app. split_and!; [done | | by apply NoDup_singleton].
        intros k Hk Hk'. apply list_elem_of_singleton in Hk'. subst k.
        apply Hin. rewrite Hseen. by apply elem_of_list_to_set.
      * split_and!; [done | done | rewrite H3; set_solver |].
        exists (job :: added). split; [by rewrite H4, <- app_assoc | by constructor].
Qed.

(** X26: whatever the jobs hold, the page's own deduplication returns a
    subsequence of its input in which no key occurs twice and every key of
    the input occurs. *)
Theorem removeDuplicateJobs_keys (jobs : list Posting) :
  NoDup (key <$> removeDuplicateJobs jobs)
  /\ (removeDuplicateJobs jobs `sublist_of` jobs)
  /\ list_to_set (key <$> removeDuplicateJobs jobs)
     =@{gset string} list_to_set (key <$> jobs).
Proof.
  unfold removeDuplicateJobs.
  destruct (fold_dedup_callback_inv jobs ∅ [] eq_refl (NoDup_nil_2 (A:=string)))
    as (H1 & H2 & H3 & added & H4 & H5).
  cbn zeta in *. split_and!; [done | by rewrite H4 |].
  rewrite <- H1, H3. set_solver.
Qed.

Lemma ranked_identities (l : list Job) :
  list_to_set (identifier <$> rank (unique_jobs_of l))
  =@{gset string} list_to_set (identifier <$> l)
  /\ NoDup (identifier <$> rank (unique_jobs_of l)).
Proof.
  assert (Hperm : rank (unique_jobs_of l) ≡ₚ unique_jobs_of l)
    by apply sort_reverse_Permutation.
  split.
  - apply set_eq. intros i. rewrite !elem_of_list_to_set, Hperm.
    rewrite <- !(elem_of_list_to_set (C:=gset string)).
    by rewrite unique_jobs_of_keep_first, keep_first_identities, difference_empty_L.
  - rewrite Hperm. apply unique_jobs_of_NoDup.
Qed.

Lemma key_fmap_identifier (jobs : list Posting) :
  Forall (fun job => is_Some (title (record job)) /\ is_Some (company (record job)))
         jobs ->
  key <$> jobs = identifier <$> (record <$> jobs).
Proof.
  induction 1 as [|job jobs [Ht Hc] Hall IH]; [done|].
  rewrite !fmap_cons, IH. f_equal. by apply key_identifier.
Qed.

(** X27: when the page finds no master file and no data/jobs.json and falls
    back to the three staging files, whose jobs all have a title and a
    company, it shows the identities the integration script would publish
    from the same files, each once, and so the same number of jobs; the
    page reads LinkedIn first and the script the academic source first, so
    order and version of a shared posting may differ. *)
Theorem loadJobs_fallback_identities (now1 now2 : string)
    (academic rss linkedin : list Posting) :
  Forall (fun job => is_Some (title (record job)) /\ is_Some (company (record job)))
         (linkedin ++ rss ++ academic) ->
  let shown :=
    (loadJobs None None (Some {| fetched_jobs := Some linkedin |})
              (Some {| fetched_jobs := Some rss |})
              (Some {| fetched_jobs := Some academic |})).1 in
  let published :=
    jobs (integrate now1 now2
            (Some {| jobs_key := Some (record <$> academic) |})
            (Some {| jobs_key := Some (record <$> rss) |})
            (Some {| jobs_key := Some (record <$> linkedin) |})) in
  list_to_set (identifier <$> (record <$> shown))
  =@{gset string} list_to_set (identifier <$> published)
  /\ NoDup (identifier <$> (record <$> shown))
  /\ length shown = length published.
Proof.
  intros Hall. simpl. unfold combine, jobs_of. simpl. rewrite <- !app_assoc.
  set (all := linkedin ++ rss ++ academic) in *.
  set (staged := (record <$> academic) ++ (record <$> rss) ++ (record <$> linkedin)).
  destruct (fold_dedup_callback_inv all ∅ [] eq_refl (NoDup_nil_2 (A:=string)))
    as (H1 & H2 & H3 & added & H4 & H5).
  cbn zeta in *. fold (removeDuplicateJobs all) in *. simpl in H4. subst added.
  assert (Hkept : Forall (fun job => is_Some (title (record job))
                                     /\ is_Some (company (record job)))
                         (removeDuplicateJobs all)).
  { apply Forall_forall. intros job Hjob. rewrite Forall_forall in Hall.
    apply Hall. by eapply elem_of_sublist. }
  rewrite (key_fmap_identifier _ Hkept) in H1, H2.
  rewrite (key_fmap_identifier _ Hall) in H3.
  destruct (ranked_identities staged) as [Hset Hnd].
  assert (Hsame : list_to_set (identifier <$> (record <$> removeDuplicateJobs all))
                  =@{gset string} list_to_set (identifier <$> rank (unique_jobs_of staged))).
  { rewrite <- H1, H3, Hset. unfold all, staged.
    rewrite !fmap_app, !list_to_set_app_L. set_solver. }
  split_and!; [done | done |].
  rewrite <- (length_fmap record), <- (length_fmap identifier).
  rewrite <- (length_fmap identifier (rank _)).
  rewrite <- (size_list_to_set (C:=gset string)) by done.
  rewrite <- (size_list_to_set (C:=gset string) (identifier <$> rank _)) by done.
  by rewrite Hsame.
Qed.

Lemma loadJobs_fallback_identities_witness :
  length (loadJobs None None
            (Some {| fetched_jobs :=
                       Some [posting linkedin_fellow "Remote" "LinkedIn: Fellowship"] |})
            (Some {| fetched_jobs := Some [] |})
            (Some {| fetched_jobs :=
                       Some [posting academic_fellow "Cambridge, MA" "Fellowship"] |})).1
  = length (jobs (integrate "t1" "t2"
                    (Some {| jobs_key := Some [academic_fellow] |})
                    (Some {| jobs_key := Some [] |})
                    (Some {| jobs_key := Some [linkedin_fellow] |}))).
Proof.
  refine (proj2 (proj2 (loadJobs_fallback_identities "t1" "t2"
            [posting academic_fellow "Cambridge, MA" "Fellowship"] []
            [posting linkedin_fellow "Remote" "LinkedIn: Fellowship"] _))).
  apply Forall_cons_2; [split; by eexists|].
  apply Forall_cons_2; [split; by eexists|]. apply Forall_nil_2.
Defined.

End DashboardScript.

(** ** Further theorems: the legacy files *)

Section LegacyFiles.
Import IntegrateData Workflow.

(** What the step leaves at each path. *)
Lemma update_legacy_files_lookup (script : string)
    (summarize : string -> option string) (fs : gmap string string)
    (path : string) :
  update_legacy_files script summarize fs !! path
  = if decide (path = scraping_summary_json) then
      match fs !! master_file ≫= summarize with
      | Some summary => Some summary
      | None => fs !! path
      end
    else if decide (path = create_summary_py) then Some script
    else if decide (path = jsearch_jobs_json) then
      Some (match fs !! path with
            | Some content => content
            | None => jsearch_placeholder
            end)
    else if decide (path = jobs_json) then
      match fs !! master_file with
      | Some content => Some content
      | None => fs !! path
      end
    else fs !! path.
Proof.
  assert (Hmj : master_file <> jobs_json) by discriminate.
  assert (Hms : master_file <> jsearch_jobs_json) by discriminate.
  assert (Hmc : master_file <> create_summary_py) by discriminate.
  assert (Hjs : jobs_json <> jsearch_jobs_json) by discriminate.
  unfold update_legacy_files, create_summary. cbn zeta.
  set (fs1 := match fs !! master_file with
              | Some content => <[jobs_json := content]> fs
              | None => fs
              end).
  assert (H1m : fs1 !! master_file = fs !! master_file).
  { subst fs1. destruct (fs !! master_file) eqn:E; [|done].
    by rewrite lookup_insert_ne. }
  assert (H1s : fs1 !! jsearch_jobs_json = fs !! jsearch_jobs_json).
  { subst fs1. destruct (fs !! master_file); [|done].
    by rewrite lookup_insert_ne. }
  set (fs2 := match fs1 !! jsearch_jobs_json with
              | Some _ => fs1
              | None => <[jsearch_jobs_json := jsearch_placeholder]> fs1
              end).
  assert (H2m : fs2 !! master_file = fs !! master_file).
  { subst fs2. destruct (fs1 !! jsearch_jobs_json); [done|].
    by rewrite lookup_insert_ne. }
  rewrite (lookup_insert_ne _ create_summary_py master_file) by done.
  rewrite H2m.
  assert (Hbody : forall p,
    <[create_summary_py := script]> fs2 !! p
    = if decide (p = create_summary_py) then Some script
      else if decide (p = jsearch_jobs_json) then
        Some (match fs !! p with
              | Some content => content
              | None => jsearch_placeholder
              end)
      else if decide (p = jobs_json) then
        match fs !! master_file with
        | Some content => Some content
        | None => fs !! p
        end
      else fs !! p).
  { intros p. destruct (decide (p = create_summary_py)) as [->|Hc].
    { by rewrite lookup_insert_eq. }
    rewrite lookup_insert_ne by done.
    destruct (decide (p = jsearch_jobs_json)) as [->|Hs].
    { subst fs2. rewrite H1s.
      destruct (fs !! jsearch_jobs_json) as [content|] eqn:Hfs.
      - by rewrite H1s.
      - by rewrite lookup_insert_eq. }
    assert (H2 : fs2 !! p = fs1 !! p).
    { subst fs2. destruct (fs1 !! jsearch_jobs_json); [done|].
      by rewrite lookup_insert_ne. }
    rewrite H2. subst fs1.
    destruct (decide (p = jobs_json)) as [->|Hj].
    - destruct (fs !! master_file); [by rewrite lookup_insert_eq|done].
    - destruct (fs !! master_file); [by rewrite lookup_insert_ne|done]. }
  destruct (decide (path = scraping_summary_json)) as [->|Hne].
  - assert (Hkept : <[create_summary_py := script]> fs2 !! scraping_summary_json
                    = fs !! scraping_summary_json).
    { rewrite Hbody.
      by repeat (destruct (decide _) as [?|?]; [discriminate|]). }
    destruct (fs !! master_file) as [content|]; simpl; [|done].
    destruct (summarize content); [by rewrite lookup_insert_eq|done].
  - assert (Hkept : forall m : gmap string string,
              match fs !! master_file with
              | Some content =>
                  match summarize content with
                  | Some summary => <[scraping_summary_json := summary]> m
                  | None => m
                  end
              | None => m
              end !! path = m !! path).
    { intros m. destruct (fs !! master_file) as [content|]; [|done].
      destruct (summarize content); [by rewrite lookup_insert_ne|done]. }
    rewrite Hkept. apply Hbody.
Qed.

(** X28: after a completed save, the step that updates the legacy files
    leaves at data/jobs.json the text just published, so the page's
    fallback file mirrors the master file, and keeps the master file; it
    creates data/jsearch_jobs.json when it is missing and never overwrites
    it; it writes create_summary.py; it writes data/scraping_summary.json
    when the script can summarise the published text and leaves it as it
    was when it cannot; it changes no path other than these four; and
    running it again changes nothing. *)
Theorem update_legacy_files_mirrors (script : string)
    (summarize : string -> option string) (chunks : list string)
    (fs : gmap string string) :
  let saved := run (save_master_file chunks) fs in
  let fs' := update_legacy_files script summarize saved in
  fs' !! jobs_json = Some (Spec.text chunks)
  /\ fs' !! master_file = Some (Spec.text chunks)
  /\ fs' !! jsearch_jobs_json
     = Some (match fs !! jsearch_jobs_json with
             | Some content => content
             | None => jsearch_placeholder
             end)
  /\ fs' !! create_summary_py = Some script
  /\ fs' !! scraping_summary_json
     = match summarize (Spec.text chunks) with
       | Some summary => Some summary
       | None => fs !! scraping_summary_json
       end
  /\ (forall path, path <> jobs_json -> path <> jsearch_jobs_json ->
        path <> create_summary_py -> path <> scraping_summary_json ->
        fs' !! path = saved !! path)
  /\ update_legacy_files script summarize fs' = fs'.
Proof.
  cbn zeta. rewrite run_save_master_file.
  set (text := Spec.text chunks).
  set (saved := <[master_file := text]> fs).
  assert (Hmaster : saved !! master_file = Some text)
    by (subst saved; by rewrite lookup_insert_eq).
  assert (Hother : forall p, p <> master_file -> saved !! p = fs !! p)
    by (intros p Hp; subst saved; by rewrite lookup_insert_ne).
  split_and!.
  - rewrite update_legacy_files_lookup, Hmaster.
    by repeat (destruct (decide _) as [?|?]; try discriminate; try done).
  - rewrite update_legacy_files_lookup, Hmaster.
    by repeat (destruct (decide _) as [?|?]; try discriminate; try done).
  - rewrite update_legacy_files_lookup, (Hother jsearch_jobs_json) by discriminate.
    by repeat (destruct (decide _) as [?|?]; try discriminate; try done).
  - rewrite update_legacy_files_lookup.
    by repeat (destruct (decide _) as [?|?]; try discriminate; try done).
  - rewrite update_legacy_files_lookup, Hmaster.
    rewrite (Hother scraping_summary_json) by discriminate.
    by destruct (decide _).
  - intros path H1 H2 H3 H4. rewrite update_legacy_files_lookup.
    by repeat (destruct (decide _) as [?|?]; [done|]).
  - apply map_eq. intros p.
    rewrite (update_legacy_files_lookup _ _ (update_legacy_files _ _ _)).
    rewrite !(update_legacy_files_lookup _ _ saved), Hmaster.
    simpl.
    destruct (decide (p = scraping_summary_json)) as [->|?].
    { by destruct (summarize text). }
    destruct (decide (p = create_summary_py)) as [->|?]; [done|].
    destruct (decide (p = jsearch_jobs_json)) as [->|?]; [done|].
    by destruct (decide (p = jobs_json)) as [->|?].
Qed.

End LegacyFiles.
